(** * Hexquest: territory growth, pathfinding, opponent AI and the tick engine

    A shallow embedding of the simulation core of the Hexquest sessions
    game: [src/gameEngine/rules.ts] (growth rules),
    [src/unnamed/part_007] (coordinate math and the capped Dijkstra
    [findPath]), [src/gameEngine/ai.ts] (the opponent's
    [calculateBotMove]) and the store actions of [src/store.ts]
    (lines 772-1267: [movePlayer], [processMovementStep], [tick], ...).

    Representation choices:
    - every game number ([q], [r], levels, coins, moves, progress) is an
      integer in the code paths modelled here and is a [Z];
    - a grid key is the string [`${q},${r}`]; on integer coordinates that
      string determines the pair and conversely, so a key is the pair
      [(q, r)] itself;
    - [Record<string, Hex>] is a [gmap key Hex]; [Set<string>] is a
      [gset key];
    - the utility scores of the AI, which use the weights 1.5 and 1.2,
      are exact rationals [Q]. *)

From Stdlib Require Import ZArith QArith List String Sorted.
From stdpp Require Import base gmap sets list strings.
Import ListNotations.

Open Scope Z_scope.

(* ------------------------------------------------------------------ *)
(** ** Constants ([src/constants.ts]) *)

Definition EXCHANGE_RATE_COINS_PER_MOVE : Z := 2.
Definition INITIAL_MOVES : Z := 0.
Definition INITIAL_COINS : Z := 0.
Definition SECONDS_PER_LEVEL_UNIT : Z := 5.
Definition UPGRADE_LOCK_QUEUE_SIZE : Z := 3.
Definition BOT_ACTION_INTERVAL_MS : Z := 1000.

(* ------------------------------------------------------------------ *)
(** ** Data model ([src/types.ts]) *)

Abbreviation key := (Z * Z)%type.

(** [HexCoord = { q; r; upgrade? }]; an absent [upgrade] is [false]. *)
Record HexCoord := mkCoord { cq : Z; cr : Z; upgrade : bool }.

Record Hex := mkHex {
  hex_id : key;
  hex_q : Z;
  hex_r : Z;
  currentLevel : Z;
  maxLevel : Z;
  progress : Z;
  revealed : bool
}.

Inductive EntityType := PLAYER | BOT.

(** [BotMemory]: only [lastPlayerPos] is read by the core. *)
Record BotMemory := mkMemory { lastPlayerPos : option HexCoord }.

Record Entity := mkEntity {
  ent_id : string;
  ent_type : EntityType;
  ent_q : Z;
  ent_r : Z;
  playerLevel : Z;
  coins : Z;
  totalCoinsEarned : Z;
  moves : Z;
  recentUpgrades : list key;
  movementQueue : list HexCoord;
  memory : option BotMemory
}.

Abbreviation Grid := (gmap key Hex).

Inductive WinType := WEALTH | DOMINATION.

Record WinCondition := mkWin { win_type : WinType; target : Z; botCount : Z }.

(* ------------------------------------------------------------------ *)
(** ** Coordinate math ([src/unnamed/part_007], lines 1-34) *)

Definition getHexKey (q r : Z) : key := (q, r).

Definition coordKey (c : HexCoord) : key := getHexKey (cq c) (cr c).

(** [getCoordinatesFromKey]: [{ q, r }] without an upgrade tag. *)
Definition getCoordinatesFromKey (k : key) : HexCoord := mkCoord k.1 k.2 false.

Definition cubeDistance (a b : Z * Z) : Z :=
  (Z.abs (a.1 - b.1) + Z.abs (a.1 + a.2 - b.1 - b.2) + Z.abs (a.2 - b.2)) / 2.

Definition directions : list (Z * Z) :=
  [(1, 0); (1, -1); (0, -1); (-1, 0); (-1, 1); (0, 1)].

Definition getNeighbors (q r : Z) : list HexCoord :=
  map (fun d => mkCoord (q + d.1) (r + d.2) false) directions.

(* ------------------------------------------------------------------ *)
(** ** Growth rules ([src/gameEngine/rules.ts]) *)

(** [calculateReward]: [{ coins: newHexLevel, moves: 1 }]. *)
Definition calculateReward (newHexLevel : Z) : Z * Z := (newHexLevel, 1).

Definition getSecondsToGrow (targetLevel : Z) : Z := targetLevel * SECONDS_PER_LEVEL_UNIT.

(** The [reason] strings [CYCLE INCOMPLETE (n/3)] and
    [RANK TOO LOW (NEED Lk)], kept as their data. *)
Inductive GrowthReason :=
| CYCLE_INCOMPLETE (queued : nat)
| RANK_TOO_LOW (need : Z).

Record GrowthCheck := mkCheck { canGrow : bool; reason : option GrowthReason }.

Definition checkGrowthCondition (hex : Hex) (entity : Entity) : GrowthCheck :=
  let targetLevel := currentLevel hex + 1 in
  if maxLevel hex <? targetLevel then
    if targetLevel =? 1 then mkCheck true None
    else if Z.of_nat (length (recentUpgrades entity)) <? UPGRADE_LOCK_QUEUE_SIZE then
      mkCheck false (Some (CYCLE_INCOMPLETE (length (recentUpgrades entity))))
    else if playerLevel entity <? targetLevel - 1 then
      mkCheck false (Some (RANK_TOO_LOW (targetLevel - 1)))
    else mkCheck true None
  else mkCheck true None.

(* ------------------------------------------------------------------ *)
(** ** Pathfinder ([findPath], [src/unnamed/part_007], lines 36-108) *)

(** Entry cost of a coordinate, the expression
    [(hex && hex.maxLevel >= 2) ? hex.maxLevel : 1] shared by
    [findPath], [movePlayer], [tick] and [calculateBotMove]. *)
Definition stepCost (hex : option Hex) : Z :=
  match hex with
  | Some h => if 2 <=? maxLevel h then maxLevel h else 1
  | None => 1
  end.

(** [hex && hex.maxLevel > playerRank]: the rank lock. *)
Definition rankLocked (hex : option Hex) (playerRank : Z) : bool :=
  match hex with
  | Some h => playerRank <? maxLevel h
  | None => false
  end.

Record PQEntry := mkEntry { pq_key : key; priority : Z }.

(** [priorityQueue.sort((a, b) => a.priority - b.priority)]:
    [Array.prototype.sort] is stable; this insertion sort is too (an
    element goes before the later elements of equal priority). *)
Fixpoint insertByPriority (e : PQEntry) (l : list PQEntry) : list PQEntry :=
  match l with
  | [] => [e]
  | e' :: l' => if priority e <=? priority e' then e :: l else e' :: insertByPriority e l'
  end.

Fixpoint sortByPriority (l : list PQEntry) : list PQEntry :=
  match l with
  | [] => []
  | e :: l' => insertByPriority e (sortByPriority l')
  end.

Record SearchState := mkSearch {
  distances : gmap key Z;
  previous : gmap key (option HexCoord);
  priorityQueue : list PQEntry
}.

Definition MAX_ITERATIONS : nat := 3000.

Section FindPath.

Variable grid : Grid.
Variable playerRank : Z.
Variable obstacleKeys : gset key.
Variable startKey endKey : key.
Variable end_ : HexCoord.

(** One iteration of [for (const neighbor of neighbors)]. *)
Definition relax (k : key) (currentCoord : HexCoord) (st : SearchState)
    (neighbor : HexCoord) : SearchState :=
  let nKey := coordKey neighbor in
  if bool_decide (nKey ∈ obstacleKeys) then st else
  let hex := grid !! nKey in
  if rankLocked hex playerRank then st else
  let newDist := default 0 (distances st !! k) + stepCost hex in
  let improve :=
    match distances st !! nKey with
    | None => true
    | Some d => newDist <? d
    end in
  if improve then
    mkSearch (<[nKey := newDist]> (distances st))
             (<[nKey := Some currentCoord]> (previous st))
             (priorityQueue st ++ [mkEntry nKey newDist])
  else st.

(** The path-rebuilding loop
    [while (current && key(current) !== startKey) { path.unshift(current);
    current = previous[key(current)]; }].  Each link of [previous] goes
    to a strictly closer coordinate, so the chain reaches the start in at
    most [size previous] steps; the fuel is that bound. *)
Fixpoint rebuild (fuel : nat) (prev : gmap key (option HexCoord))
    (current : option HexCoord) (path : list HexCoord) : list HexCoord :=
  match fuel with
  | O => path
  | S fuel' =>
      match current with
      | None => path
      | Some c =>
          if bool_decide (coordKey c = startKey) then path
          else rebuild fuel' prev (mjoin (prev !! coordKey c)) (c :: path)
      end
  end.

Inductive SearchOutcome :=
| Found (path : list HexCoord)
| Exhausted
| CapExceeded.

(** The [while (priorityQueue.length > 0)] loop; [fuel] is the number of
    iterations left before [iterations > MAX_ITERATIONS]. *)
Fixpoint dijkstra (fuel : nat) (st : SearchState) : SearchOutcome :=
  match priorityQueue st with
  | [] => Exhausted
  | _ :: _ =>
      match fuel with
      | O => CapExceeded
      | S fuel' =>
          match sortByPriority (priorityQueue st) with
          | [] => Exhausted
          | e :: rest =>
              let k := pq_key e in
              if bool_decide (k = endKey) then
                Found (rebuild (S (size (previous st))) (previous st) (Some end_) [])
              else
                let currentCoord := getCoordinatesFromKey k in
                dijkstra fuel'
                  (fold_left (relax k currentCoord)
                     (getNeighbors (cq currentCoord) (cr currentCoord))
                     (mkSearch (distances st) (previous st) rest))
          end
      end
  end.

End FindPath.

Definition findPath (start end_ : HexCoord) (grid : Grid) (playerRank : Z)
    (obstacles : list HexCoord) : option (list HexCoord) :=
  let startKey := coordKey start in
  let endKey := coordKey end_ in
  if bool_decide (startKey = endKey) then None else
  let obstacleKeys : gset key := list_to_set (map coordKey obstacles) in
  if bool_decide (endKey ∈ obstacleKeys) then None else
  let st0 := mkSearch {[startKey := 0]} {[startKey := None]} [mkEntry startKey 0] in
  match dijkstra grid playerRank obstacleKeys startKey endKey end_ MAX_ITERATIONS st0 with
  | Found path => Some path
  | CapExceeded => None
  | Exhausted =>
      if (cubeDistance (cq start, cr start) (cq end_, cr end_) =? 1)
         && negb (bool_decide (endKey ∈ obstacleKeys))
      then Some [end_] else None
  end.

(** The [for (const step of path)] cost loop of [movePlayer] and
    [calculateBotMove]. *)
Definition pathCost (grid : Grid) (path : list HexCoord) : Z :=
  fold_left (fun acc step => acc + stepCost (grid !! coordKey step)) path 0.

(* ------------------------------------------------------------------ *)
(** ** Opponent AI ([src/gameEngine/ai.ts]) *)

Open Scope Q_scope.

Definition W_INCOME : Q := 1.
Definition W_POSITION : Q := 3.
Definition W_RISK : Q := 3 # 2.
Definition W_DISTANCE : Q := 2.
Definition W_AGGRESSION : Q := 6 # 5.

Close Scope Q_scope.

Inductive BotRole := SURVIVAL | EXPAND | EVOLUTION | COMPETITION | DEVELOPMENT.

Definition BotRole_eqb (a b : BotRole) : bool :=
  match a, b with
  | SURVIVAL, SURVIVAL | EXPAND, EXPAND | EVOLUTION, EVOLUTION
  | COMPETITION, COMPETITION | DEVELOPMENT, DEVELOPMENT => true
  | _, _ => false
  end.

Record ScoredCandidate := mkCandidate {
  sc_coord : HexCoord;
  score : Q;
  sc_role : BotRole;
  estimatedCost : Z
}.

(** [winCondition?.type === 'DOMINATION'] *)
Definition isDomination (winCondition : option WinCondition) : bool :=
  match winCondition with
  | Some w => match win_type w with DOMINATION => true | WEALTH => false end
  | None => false
  end.

Definition entPos (e : Entity) : Z * Z := (ent_q e, ent_r e).
Definition entKey (e : Entity) : key := getHexKey (ent_q e) (ent_r e).
Definition hexPos (h : Hex) : Z * Z := (hex_q h, hex_r h).

(** [bot.moves + Math.floor(bot.coins / EXCHANGE_RATE_COINS_PER_MOVE)] *)
Definition totalResourcesOf (bot : Entity) : Z :=
  moves bot + coins bot / EXCHANGE_RATE_COINS_PER_MOVE.

Definition determineRole (bot player : Entity) (grid : Grid)
    (winCondition : option WinCondition) : BotRole :=
  let totalResources := totalResourcesOf bot in
  let queueSize := Z.of_nat (length (recentUpgrades bot)) in
  if totalResources <? 3 then SURVIVAL
  else if queueSize <? UPGRADE_LOCK_QUEUE_SIZE then EXPAND
  else if playerLevel bot <? 3 then EVOLUTION
  else if isDomination winCondition && (5 <=? totalResources) then DEVELOPMENT
  else if 5 <=? totalResources then DEVELOPMENT
  else COMPETITION.

Definition levelCapOf (winCondition : option WinCondition) : Z :=
  if isDomination winCondition then 99 else 7.

Definition strategicValueOf (targetHex : Hex) (bot : Entity) (role : BotRole)
    (dist : Z) (winCondition : option WinCondition) : Q :=
  let isQueued := existsb (fun k => bool_decide (k = hex_id targetHex)) (recentUpgrades bot) in
  let levelCap := levelCapOf winCondition in
  let ml := maxLevel targetHex in
  match role with
  | SURVIVAL =>
      if ml =? 0 then 200 else if ml <=? 1 then 50 else 0
  | EXPAND =>
      if ml =? 0 then 200 else if dist =? 0 then 0 else -500
  | EVOLUTION =>
      if ml =? playerLevel bot then 150 else -50
  | DEVELOPMENT =>
      if (2 <=? ml) && (ml <? levelCap) then
        let v1 := (100 + inject_Z (ml ^ 2) * 10)%Q in
        let v2 := if ml =? playerLevel bot then (v1 + 100)%Q else v1 in
        if isDomination winCondition && (ml =? playerLevel bot) then (v2 + 1000)%Q else v2
      else if ml =? 0 then -100 else -50
  | COMPETITION =>
      if negb isQueued && (ml =? 0) then
        match memory bot with
        | Some m =>
            match lastPlayerPos m with
            | Some p =>
                let distToPlayer := cubeDistance (hexPos targetHex) (cq p, cr p) in
                (50 + inject_Z (15 - distToPlayer) * W_AGGRESSION)%Q
            | None => 50
            end
        | None => 50
        end
      else -20
  end.

Definition calculateHexUtility (targetHex : Hex) (bot player : Entity) (role : BotRole)
    (dist totalResources ownedHexCount : Z) (winCondition : option WinCondition) : Q :=
  let levelCap := levelCapOf winCondition in
  let ml := maxLevel targetHex in
  let u1 := (strategicValueOf targetHex bot role dist winCondition * W_POSITION)%Q in
  let nextLevel := ml + 1 in
  let potentialIncome := (inject_Z (nextLevel ^ 2) * (3 # 2))%Q in
  let u2 := (u1 + potentialIncome * W_INCOME)%Q in
  let entryCost := if 2 <=? ml then ml else 1 in
  let travelCost := Z.max 0 (dist - 1) in
  let totalEstimatedCost := travelCost + entryCost in
  let u3 := if totalResources <? totalEstimatedCost then (u2 - 5000 * W_RISK)%Q
            else (u2 - inject_Z totalEstimatedCost * W_RISK)%Q in
  let u4 := if BotRole_eqb role EXPAND && (ml =? 0) then (u3 - inject_Z dist * (W_DISTANCE * 5))%Q
            else (u3 - inject_Z dist * W_DISTANCE)%Q in
  let growthCheck := checkGrowthCondition targetHex bot in
  let u5 := if (dist =? 0) && canGrow growthCheck then
              if (BotRole_eqb role DEVELOPMENT || BotRole_eqb role EVOLUTION) && (2 <=? ml)
              then (u4 + 50 + 1000)%Q else (u4 + 50)%Q
            else u4 in
  let u6 := if negb (canGrow growthCheck) && (0 <? ml) then (u5 - 200)%Q else u5 in
  if levelCap <=? ml then (u6 - inject_Z (ml - levelCap) * 100)%Q else u6.

(** [candidates.sort((a, b) => b.score - a.score)]: a stable sort by
    descending score. *)
Fixpoint insertByScore (c : ScoredCandidate) (l : list ScoredCandidate) : list ScoredCandidate :=
  match l with
  | [] => [c]
  | c' :: l' => if Qle_bool (score c') (score c) then c :: l else c' :: insertByScore c l'
  end.

Fixpoint sortByScore (l : list ScoredCandidate) : list ScoredCandidate :=
  match l with
  | [] => []
  | c :: l' => insertByScore c (sortByScore l')
  end.

(** [for (const key in grid)] visits the keys of the object in insertion
    order; the model visits [map_to_list grid].  The visiting order only
    decides the order of candidates of equal score. *)
Definition ownedHexCountOf (bot player : Entity) (grid : Grid) : Z :=
  fold_left (fun n kh =>
      if (0 <? maxLevel kh.2)
         && (cubeDistance (entPos bot) (hexPos kh.2) <? cubeDistance (entPos player) (hexPos kh.2))
      then n + 1 else n) (map_to_list grid) 0.

(** One iteration of the [1. SCAN AND SCORE] loop. *)
Definition scoreCandidate (bot player : Entity) (winCondition : option WinCondition)
    (currentRole : BotRole) (totalResources ownedHexCount : Z) (kh : key * Hex)
    : option ScoredCandidate :=
  let '(k, hex) := kh in
  if BotRole_eqb currentRole EXPAND && (0 <? maxLevel hex)
     && negb (bool_decide (k = entKey bot)) then None
  else if (playerLevel bot <? maxLevel hex)
          && negb (BotRole_eqb currentRole DEVELOPMENT && (maxLevel hex =? playerLevel bot + 1))
  then None
  else if (hex_q hex =? ent_q player) && (hex_r hex =? ent_r player) then None
  else
    let dist := cubeDistance (entPos bot) (hexPos hex) in
    let searchRadius := if BotRole_eqb currentRole SURVIVAL then 4 else 15 in
    if searchRadius <? dist then None
    else
      let sc := calculateHexUtility hex bot player currentRole dist totalResources
                  ownedHexCount winCondition in
      if Qlt_le_dec (-5000) sc then
        Some (mkCandidate (mkCoord (hex_q hex) (hex_r hex) false) sc currentRole
                (stepCost (Some hex) + (dist - 1)))
      else None.

(** The candidates after [2. RANK CANDIDATES]. *)
Definition rankedCandidates (bot : Entity) (grid : Grid) (player : Entity)
    (winCondition : option WinCondition) : list ScoredCandidate :=
  let totalResources := totalResourcesOf bot in
  let currentRole := determineRole bot player grid winCondition in
  let ownedHexCount := ownedHexCountOf bot player grid in
  sortByScore (omap (scoreCandidate bot player winCondition currentRole totalResources
                       ownedHexCount) (map_to_list grid)).

Definition upgradeHere (bot : Entity) : list HexCoord :=
  [mkCoord (ent_q bot) (ent_r bot) true].

Definition growthCheckAt (grid : Grid) (bot : Entity) : GrowthCheck :=
  match grid !! entKey bot with
  | Some h => checkGrowthCondition h bot
  | None => mkCheck false None
  end.

(** The [4. PATH VALIDATION] loop over the first [checkCount]
    candidates. *)
Fixpoint validateCandidates (bot : Entity) (grid : Grid) (obstacles : list HexCoord)
    (totalResources : Z) (cands : list ScoredCandidate) : option (list HexCoord) :=
  match cands with
  | [] => None
  | candidate :: rest =>
      if (cq (sc_coord candidate) =? ent_q bot) && (cr (sc_coord candidate) =? ent_r bot) then
        if canGrow (growthCheckAt grid bot) then Some (upgradeHere bot)
        else validateCandidates bot grid obstacles totalResources rest
      else
        match findPath (mkCoord (ent_q bot) (ent_r bot) false) (sc_coord candidate) grid
                (playerLevel bot) obstacles with
        | Some path =>
            if pathCost grid path <=? totalResources then Some path
            else validateCandidates bot grid obstacles totalResources rest
        | None => validateCandidates bot grid obstacles totalResources rest
        end
  end.

Definition checkCountOf (role : BotRole) : nat :=
  if BotRole_eqb role SURVIVAL then 15%nat else 5%nat.

Definition calculateBotMove (bot : Entity) (grid : Grid) (player : Entity)
    (winCondition : option WinCondition) (obstacles : list HexCoord)
    : option (list HexCoord) :=
  let currentHex := grid !! entKey bot in
  let committed :=
    match currentHex with
    | Some h => (0 <? progress h) && (maxLevel h <? 99)
    | None => false
    end in
  if committed then Some (upgradeHere bot) else
  let totalResources := totalResourcesOf bot in
  let currentRole := determineRole bot player grid winCondition in
  let candidates := rankedCandidates bot grid player winCondition in
  let growthCheck := growthCheckAt grid bot in
  if (totalResources <? 1) && canGrow growthCheck then Some (upgradeHere bot) else
  let strategic :=
    if BotRole_eqb currentRole DEVELOPMENT || BotRole_eqb currentRole EVOLUTION then
      match currentHex with
      | Some h => (2 <=? maxLevel h) && (maxLevel h <? levelCapOf winCondition)
                  && canGrow growthCheck
      | None => false
      end
    else false in
  if strategic then Some (upgradeHere bot) else
  validateCandidates bot grid obstacles totalResources
    (firstn (checkCountOf currentRole) candidates).

(* ------------------------------------------------------------------ *)
(** ** The store ([src/store.ts], lines 772-1267) *)

Inductive UIState := MENU | GAME | LEADERBOARD.

Inductive GameStatus := PLAYING | GAME_OVER | VICTORY | DEFEAT.

(** The toast texts raised by the actions, kept as their data. *)
Inductive ToastMessage :=
| GrowthDenied
| RankRequired (lvl : Z)
| PathBlocked
| NeedMoves (total : Z)
| PathBlockedBySentinel (botId : string).

Record PendingConfirmation := mkPending {
  pc_path : list HexCoord;
  costMoves : Z;
  costCoins : Z
}.

(** The simulation part of [GameState]; the user profile, the message log,
    the leaderboard and the session id are not read by the core. *)
Record GameState := mkState {
  uiState : UIState;
  pendingConfirmation : option PendingConfirmation;
  winCondition : option WinCondition;
  grid : Grid;
  player : Entity;
  bots : list Entity;
  gameStatus : GameStatus;
  lastBotActionTime : Z;
  isPlayerGrowing : bool;
  growingBotIds : list string;
  toast : option ToastMessage;
  hasActiveSession : bool
}.

Definition createInitialHex (q r startLevel : Z) : Hex :=
  mkHex (getHexKey q r) q r 0 startLevel 0 true.

(** [if (newGrid[k]) newGrid[k] = { ...newGrid[k], currentLevel: 0, progress: 0 }]:
    the tile left behind by a moving agent. *)
Definition leaveHex (g : Grid) (k : key) : Grid :=
  match g !! k with
  | Some h => <[k := mkHex (hex_id h) (hex_q h) (hex_r h) 0 (maxLevel h) 0 (revealed h)]> g
  | None => g
  end.

(** [getNeighbors(q, r).concat({q, r}).forEach(n => { if (!newGrid[k])
    newGrid[k] = createInitialHex(n.q, n.r, 0); })] *)
Definition exploreAround (g : Grid) (c : HexCoord) : Grid :=
  fold_left (fun g' n =>
      match g' !! coordKey n with
      | Some _ => g'
      | None => <[coordKey n := createInitialHex (cq n) (cr n) 0]> g'
      end) (getNeighbors (cq c) (cr c) ++ [c]) g.

(** Entity updates used by the actions ([{ ...e, field: v }] or
    [e.field = v]). *)
Definition setPos (e : Entity) (q r : Z) : Entity :=
  mkEntity (ent_id e) (ent_type e) q r (playerLevel e) (coins e) (totalCoinsEarned e)
    (moves e) (recentUpgrades e) (movementQueue e) (memory e).

Definition setQueue (e : Entity) (mq : list HexCoord) : Entity :=
  mkEntity (ent_id e) (ent_type e) (ent_q e) (ent_r e) (playerLevel e) (coins e)
    (totalCoinsEarned e) (moves e) (recentUpgrades e) mq (memory e).

Definition setPurse (e : Entity) (mv cn : Z) : Entity :=
  mkEntity (ent_id e) (ent_type e) (ent_q e) (ent_r e) (playerLevel e) cn
    (totalCoinsEarned e) mv (recentUpgrades e) (movementQueue e) (memory e).

Definition setMemory (e : Entity) (m : option BotMemory) : Entity :=
  mkEntity (ent_id e) (ent_type e) (ent_q e) (ent_r e) (playerLevel e) (coins e)
    (totalCoinsEarned e) (moves e) (recentUpgrades e) (movementQueue e) m.

(** The queue bookkeeping of a record level-up:
    [targetLevel === 1]: [q = [...ent.recentUpgrades, hex.id];
    if (q.length > UPGRADE_LOCK_QUEUE_SIZE) q.shift()];
    otherwise [ent.recentUpgrades = []]. *)
Definition recordQueue (recent : list key) (id : key) (targetLevel : Z) : list key :=
  if targetLevel =? 1 then
    let q := recent ++ [id] in
    if UPGRADE_LOCK_QUEUE_SIZE <? Z.of_nat (length q) then tail q else q
  else [].

Record GrowthResult := mkGrowth {
  gr_grid : Grid;
  gr_ent : Entity;
  growing : bool;
  finishedStep : bool
}.

(** [processEntityGrowth], the closure over [newGrid] inside [tick]. *)
Definition processEntityGrowth (newGrid : Grid) (ent : Entity) (isGrowing : bool)
    : GrowthResult :=
  let hasUpgradeCmd :=
    match movementQueue ent with c :: _ => upgrade c | [] => false end in
  let queued := match movementQueue ent with [] => false | _ :: _ => true end in
  if negb isGrowing || (queued && negb hasUpgradeCmd) then mkGrowth newGrid ent false false else
  let k := getHexKey (ent_q ent) (ent_r ent) in
  match newGrid !! k with
  | None => mkGrowth newGrid ent false false
  | Some hex =>
      if negb (canGrow (checkGrowthCondition hex ent)) then mkGrowth newGrid ent false false else
      let targetLevel := currentLevel hex + 1 in
      let needed := getSecondsToGrow targetLevel in
      if needed <=? progress hex + 1 then
        let isRecord := maxLevel hex <? targetLevel in
        let finalCoins :=
          if isRecord && negb (targetLevel =? 1) then targetLevel ^ 2
          else fst (calculateReward targetLevel) in
        let newMaxLevel := if isRecord then targetLevel else maxLevel hex in
        let newRank := if isRecord then Z.max (playerLevel ent) targetLevel else playerLevel ent in
        let newRecent :=
          if isRecord then recordQueue (recentUpgrades ent) (hex_id hex) targetLevel
          else recentUpgrades ent in
        let ent' := mkEntity (ent_id ent) (ent_type ent) (ent_q ent) (ent_r ent) newRank
                      (coins ent + finalCoins) (totalCoinsEarned ent + finalCoins)
                      (moves ent + 1) newRecent (movementQueue ent) (memory ent) in
        let newGrid' := <[k := mkHex (hex_id hex) (hex_q hex) (hex_r hex) targetLevel
                                 newMaxLevel 0 (revealed hex)]> newGrid in
        mkGrowth newGrid' ent' (targetLevel <? newMaxLevel) true
      else
        mkGrowth (<[k := mkHex (hex_id hex) (hex_q hex) (hex_r hex) (currentLevel hex)
                          (maxLevel hex) (progress hex + 1) (revealed hex)]> newGrid)
                 ent true false
  end.

(** The payment of a bot's step: moves first, then coins at the exchange
    rate; [None] when [canAfford] stays false. *)
Definition payStep (b : Entity) (cost : Z) : option Entity :=
  if cost <=? moves b then Some (setPurse b (moves b - cost) (coins b))
  else
    let deficit := cost - moves b in
    let coinCost := deficit * EXCHANGE_RATE_COINS_PER_MOVE in
    if coinCost <=? coins b then Some (setPurse b 0 (coins b - coinCost))
    else None.

(** A bot's movement step inside [tick] (the [else] branch of
    [if (nextStep.upgrade)]): the collision check against the current
    occupancy set, the payment, and the commit. *)
Definition botMoveStep (newGrid : Grid) (occupied : gset key) (oldKey : key)
    (b : Entity) (nextStep : HexCoord) (rest : list HexCoord) : Grid * Entity :=
  let targetKey := coordKey nextStep in
  if bool_decide (targetKey ∈ occupied) then (newGrid, setQueue b [])
  else
    let b1 := setQueue b rest in
    let cost := stepCost (newGrid !! targetKey) in
    match payStep b1 cost with
    | Some b2 =>
        let b3 := setPos b2 (cq nextStep) (cr nextStep) in
        (exploreAround (leaveHex newGrid oldKey) (mkCoord (ent_q b3) (ent_r b3) false), b3)
    | None => (newGrid, setQueue b1 [])
    end.

(** The state threaded through the sequential bots loop of [tick]. *)
Record BotLoop := mkLoop {
  lp_grid : Grid;
  occupiedHexKeys : gset key;
  lp_lastBotActionTime : Z;
  newBots : list Entity;
  lp_growingBotIds : list string
}.

Section Tick.

Variable now : Z.
Variable state : GameState.
Variable newPlayer : Entity.

(** [if (!stillGrowing && (now - lastBotActionTime > BOT_ACTION_INTERVAL_MS))]:
    the bot's action, a step of its queue or an AI decision. *)
Definition botAct (newGrid : Grid) (occupied : gset key) (oldKey : key) (b : Entity)
    (stillGrowing : bool) : Grid * Entity * bool :=
  match movementQueue b with
  | nextStep :: rest =>
      if upgrade nextStep then
        match newGrid !! entKey b with
        | Some bHex =>
            if canGrow (checkGrowthCondition bHex b) then (newGrid, b, true)
            else (newGrid, setQueue b rest, stillGrowing)
        | None => (newGrid, setQueue b rest, stillGrowing)
        end
      else
        let '(g', b') := botMoveStep newGrid occupied oldKey b nextStep rest in
        (g', b', stillGrowing)
  | [] =>
      let obstacles := map getCoordinatesFromKey (elements occupied) in
      match calculateBotMove b newGrid newPlayer (winCondition state) obstacles with
      | Some (p :: ps) => (newGrid, setQueue b (p :: ps), stillGrowing)
      | _ =>
          if EXCHANGE_RATE_COINS_PER_MOVE <=? coins b then
            (newGrid, setPurse b (moves b + 1) (coins b - EXCHANGE_RATE_COINS_PER_MOVE),
             stillGrowing)
          else (newGrid, b, stillGrowing)
      end
  end.

(** [if (bResult.finishedStep) { if (b.movementQueue[0].upgrade) {
    b.movementQueue.shift(); stillGrowing = false; lastBotActionTime = now; } }] *)
Definition finishUpgrade (bResult : GrowthResult) (last : Z) : Entity * bool * Z :=
  let b1 := gr_ent bResult in
  if finishedStep bResult then
    match movementQueue b1 with
    | c :: rest => if upgrade c then (setQueue b1 rest, false, now)
                   else (b1, growing bResult, last)
    | [] => (b1, growing bResult, last)
    end
  else (b1, growing bResult, last).

(** One iteration of [for (let i = 0; i < state.bots.length; i++)]. *)
Definition botIteration (lp : BotLoop) (bot : Entity) : BotLoop :=
  let b0 :=
    match memory bot with
    | Some _ => setMemory bot (Some (mkMemory (Some (mkCoord (ent_q newPlayer) (ent_r newPlayer) false))))
    | None => bot
    end in
  let oldKey := getHexKey (ent_q b0) (ent_r b0) in
  let occ1 := occupiedHexKeys lp ∖ {[oldKey]} in
  let isBotGrowing := bool_decide (ent_id b0 ∈ growingBotIds state) in
  let bResult := processEntityGrowth (lp_grid lp) b0 isBotGrowing in
  let '(b2, stillGrowing1, last1) := finishUpgrade bResult (lp_lastBotActionTime lp) in
  let '(g3, b3, stillGrowing2) :=
    if negb stillGrowing1 && (BOT_ACTION_INTERVAL_MS <? now - last1)
    then botAct (gr_grid bResult) occ1 oldKey b2 stillGrowing1
    else (gr_grid bResult, b2, stillGrowing1) in
  mkLoop g3 (occ1 ∪ {[entKey b3]}) last1 (newBots lp ++ [b3])
    (if stillGrowing2 then lp_growingBotIds lp ++ [ent_id b3] else lp_growingBotIds lp).

Definition botsLoop (newGrid : Grid) : BotLoop :=
  let occupied0 : gset key :=
    {[entKey newPlayer]} ∪ list_to_set (map entKey (bots state)) in
  fold_left botIteration (bots state)
    (mkLoop newGrid occupied0 (lastBotActionTime state) [] []).

End Tick.

Definition reachesTarget (w : WinCondition) (e : Entity) : bool :=
  match win_type w with
  | WEALTH => target w <=? totalCoinsEarned e
  | DOMINATION => target w <=? playerLevel e
  end.

Definition tick (now : Z) (state : GameState) : GameState :=
  match uiState state, gameStatus state with
  | GAME, PLAYING =>
      let pResult := processEntityGrowth (grid state) (player state) (isPlayerGrowing state) in
      let newPlayer := gr_ent pResult in
      let lp := botsLoop now state newPlayer (gr_grid pResult) in
      let last := if BOT_ACTION_INTERVAL_MS <? now - lp_lastBotActionTime lp then now
                  else lp_lastBotActionTime lp in
      let newStatus :=
        match winCondition state with
        | Some w =>
            if reachesTarget w newPlayer then VICTORY
            else if existsb (reachesTarget w) (newBots lp) then DEFEAT
            else gameStatus state
        | None => gameStatus state
        end in
      mkState (uiState state) (pendingConfirmation state) (winCondition state) (lp_grid lp)
        newPlayer (newBots lp) newStatus last (growing pResult) (lp_growingBotIds lp)
        (toast state) (hasActiveSession state)
  | _, _ => state
  end.

(** [set({ ... })] merges the listed fields into the state. *)
Definition setToast (s : GameState) (t : ToastMessage) : GameState :=
  mkState (uiState s) (pendingConfirmation s) (winCondition s) (grid s) (player s) (bots s)
    (gameStatus s) (lastBotActionTime s) (isPlayerGrowing s) (growingBotIds s) (Some t)
    (hasActiveSession s).

Definition setPlayer (s : GameState) (p : Entity) : GameState :=
  mkState (uiState s) (pendingConfirmation s) (winCondition s) (grid s) p (bots s)
    (gameStatus s) (lastBotActionTime s) (isPlayerGrowing s) (growingBotIds s) (toast s)
    (hasActiveSession s).

Definition setGridPlayer (s : GameState) (g : Grid) (p : Entity) : GameState :=
  mkState (uiState s) (pendingConfirmation s) (winCondition s) g p (bots s)
    (gameStatus s) (lastBotActionTime s) (isPlayerGrowing s) (growingBotIds s) (toast s)
    (hasActiveSession s).

Definition setPending (s : GameState) (pc : option PendingConfirmation) : GameState :=
  mkState (uiState s) pc (winCondition s) (grid s) (player s) (bots s)
    (gameStatus s) (lastBotActionTime s) (isPlayerGrowing s) (growingBotIds s) (toast s)
    (hasActiveSession s).

Definition setPlayerGrowing (s : GameState) (p : Entity) (pc : option PendingConfirmation)
    (growingFlag : bool) : GameState :=
  mkState (uiState s) pc (winCondition s) (grid s) p (bots s)
    (gameStatus s) (lastBotActionTime s) growingFlag (growingBotIds s) (toast s)
    (hasActiveSession s).

Definition UIState_eqb (a b : UIState) : bool :=
  match a, b with
  | MENU, MENU | GAME, GAME | LEADERBOARD, LEADERBOARD => true
  | _, _ => false
  end.

Definition queueEmpty (e : Entity) : bool :=
  match movementQueue e with [] => true | _ :: _ => false end.

(** [processMovementStep]: drains one step of the player's queue. *)
Definition processMovementStep (state : GameState) : GameState :=
  match movementQueue (player state) with
  | [] => state
  | nextStep :: rest =>
      match find (fun b => (ent_q b =? cq nextStep) && (ent_r b =? cr nextStep)) (bots state) with
      | Some hitBot =>
          setToast (setPlayer state (setQueue (player state) [])) (PathBlockedBySentinel (ent_id hitBot))
      | None =>
          let oldKey := getHexKey (ent_q (player state)) (ent_r (player state)) in
          let newGrid := exploreAround (leaveHex (grid state) oldKey) nextStep in
          setGridPlayer state newGrid
            (setQueue (setPos (player state) (cq nextStep) (cr nextStep)) rest)
      end
  end.

(** [movePlayer(tq, tr)] *)
Definition movePlayer (tq tr : Z) (state : GameState) : GameState :=
  if negb (UIState_eqb (uiState state) GAME) || negb (queueEmpty (player state)) then state
  else if (tq =? ent_q (player state)) && (tr =? ent_r (player state)) then state
  else
    let targetHex := grid state !! getHexKey tq tr in
    if rankLocked targetHex (playerLevel (player state)) then
      setToast state (RankRequired (match targetHex with Some h => maxLevel h | None => 0 end))
    else
      let obstacles := map (fun b => mkCoord (ent_q b) (ent_r b) false) (bots state) in
      match findPath (mkCoord (ent_q (player state)) (ent_r (player state)) false)
              (mkCoord tq tr false) (grid state) (playerLevel (player state)) obstacles with
      | None => setToast state PathBlocked
      | Some path =>
          let totalMoveCost := pathCost (grid state) path in
          let costMoves := Z.min (moves (player state)) totalMoveCost in
          let deficit := totalMoveCost - costMoves in
          let costCoins := deficit * EXCHANGE_RATE_COINS_PER_MOVE in
          if coins (player state) <? costCoins then setToast state (NeedMoves totalMoveCost)
          else if 0 <? costCoins then setPending state (Some (mkPending path costMoves costCoins))
          else setPlayerGrowing state
                 (setQueue (setPurse (player state) (moves (player state) - costMoves)
                              (coins (player state))) path)
                 (pendingConfirmation state) false
      end.

(** [confirmPendingAction] *)
Definition confirmPendingAction (state : GameState) : GameState :=
  match pendingConfirmation state with
  | None => state
  | Some pc =>
      let p := player state in
      if (moves p <? costMoves pc) || (coins p <? costCoins pc) then setPending state None
      else setPlayerGrowing state
             (setQueue (setPurse p (moves p - costMoves pc) (coins p - costCoins pc)) (pc_path pc))
             None false
  end.

(** [cancelPendingAction] *)
Definition cancelPendingAction (state : GameState) : GameState := setPending state None.

(** [rechargeMove] *)
Definition rechargeMove (state : GameState) : GameState :=
  if negb (UIState_eqb (uiState state) GAME)
     || (coins (player state) <? EXCHANGE_RATE_COINS_PER_MOVE) then state
  else setPlayer state (setPurse (player state) (moves (player state) + 1)
                          (coins (player state) - EXCHANGE_RATE_COINS_PER_MOVE)).

(** [togglePlayerGrowth] *)
Definition togglePlayerGrowth (state : GameState) : GameState :=
  if negb (UIState_eqb (uiState state) GAME) || negb (queueEmpty (player state)) then state
  else
    let denied :=
      if isPlayerGrowing state then false
      else match grid state !! entKey (player state) with
           | Some hex => negb (canGrow (checkGrowthCondition hex (player state)))
           | None => false
           end in
    if denied then setToast state GrowthDenied
    else setPlayerGrowing state (player state) (pendingConfirmation state)
           (negb (isPlayerGrowing state)).

(** [generateInitialGameData]; the message log, session id and
    leaderboard are left out.  [lastBotActionTime] is [Date.now()], the
    argument [now]; [uiState] is the store's initial [MENU]. *)
Definition spawnPoints : list (Z * Z) := [(1, -1); (-1, 1); (1, 0); (-1, 0)].

(** [`bot-${i+1}`] for the at most four spawn slots. *)
Definition botIdOf (i : nat) : string :=
  match i with
  | 0%nat => "bot-1" | 1%nat => "bot-2" | 2%nat => "bot-3" | _ => "bot-4"
  end.

Definition addIfAbsent (g : Grid) (n : HexCoord) : Grid :=
  match g !! coordKey n with
  | Some _ => g
  | None => <[coordKey n := createInitialHex (cq n) (cr n) 0]> g
  end.

Definition spawnBot (i : nat) (sp : Z * Z) : Entity :=
  mkEntity (botIdOf i) BOT sp.1 sp.2 0 INITIAL_COINS 0 INITIAL_MOVES [] []
    (Some (mkMemory None)).

(** The spawning loop: [for (let i = 0; i < Math.min(botCount, spawnPoints.length); i++)]. *)
Fixpoint spawnBots (i n : nat) (sps : list (Z * Z)) (g : Grid) (acc : list Entity)
    : Grid * list Entity :=
  match n, sps with
  | S n', sp :: sps' =>
      let g' :=
        match g !! getHexKey sp.1 sp.2 with
        | Some _ => g
        | None => fold_left addIfAbsent (getNeighbors sp.1 sp.2)
                    (<[getHexKey sp.1 sp.2 := createInitialHex sp.1 sp.2 0]> g)
        end in
      spawnBots (S i) n' sps' g' (acc ++ [spawnBot i sp])
  | _, _ => (g, acc)
  end.

Definition initialPlayer : Entity :=
  mkEntity "player-1" PLAYER 0 0 0 INITIAL_COINS 0 INITIAL_MOVES [] [] None.

Definition generateInitialGameData (winCondition : option WinCondition) (now : Z) : GameState :=
  let startHex := createInitialHex 0 0 0 in
  let initialGrid0 : Grid := {[getHexKey 0 0 := startHex]} in
  let initialGrid1 :=
    fold_left (fun g n => <[coordKey n := createInitialHex (cq n) (cr n) 0]> g)
      (getNeighbors 0 0) initialGrid0 in
  let botCount' :=
    match winCondition with
    | Some w => if botCount w =? 0 then 1 else botCount w
    | None => 1
    end in
  let '(g, bs) := spawnBots 0 (Z.to_nat (Z.min botCount' (Z.of_nat (length spawnPoints))))
                    spawnPoints initialGrid1 [] in
  mkState MENU None winCondition g initialPlayer bs PLAYING now false [] None false.

Definition withSession (s : GameState) (ui : UIState) (active : bool) (st : GameStatus)
    : GameState :=
  mkState ui (pendingConfirmation s) (winCondition s) (grid s) (player s) (bots s)
    st (lastBotActionTime s) (isPlayerGrowing s) (growingBotIds s) (toast s) active.

(** The store's actions that touch the simulation state.  The
    authentication actions and [showToast]/[hideToast] only write the
    user profile or the toast. *)
Inductive StoreAction :=
| SetUIState (ui : UIState)
| StartNewGame (w : WinCondition) (now : Z)
| AbandonSession (now : Z)
| Logout (now : Z)
| TogglePlayerGrowth
| RechargeMove
| CancelPendingAction
| ConfirmPendingAction
| MovePlayer (tq tr : Z)
| ProcessMovementStep
| Tick (now : Z).

Definition storeStep (a : StoreAction) (s : GameState) : GameState :=
  match a with
  | SetUIState ui => withSession s ui (hasActiveSession s) (gameStatus s)
  | StartNewGame w now => withSession (generateInitialGameData (Some w) now) GAME true PLAYING
  | AbandonSession now => withSession (generateInitialGameData None now) MENU false GAME_OVER
  | Logout now => withSession (generateInitialGameData None now) MENU false GAME_OVER
  | TogglePlayerGrowth => togglePlayerGrowth s
  | RechargeMove => rechargeMove s
  | CancelPendingAction => cancelPendingAction s
  | ConfirmPendingAction => confirmPendingAction s
  | MovePlayer tq tr => movePlayer tq tr s
  | ProcessMovementStep => processMovementStep s
  | Tick now => tick now s
  end.

(** The states the store can be in: the state built by [create] at time
    [t0], and everything the actions lead to. *)
Inductive reachable : GameState -> Prop :=
| reachable_init t0 : reachable (generateInitialGameData None t0)
| reachable_step a s : reachable s -> reachable (storeStep a s).

Definition agents (s : GameState) : list Entity := player s :: bots s.

(* ------------------------------------------------------------------ *)
(** ** The older bot move ([src/unnamed/part_007], lines 133-135 and 252-283)

    The second half of [part_007] keeps an earlier [calculateBotMove(bot,
    grid, opponent)] that picks a single neighbouring step, with its helper
    [getDistanceToCenter]. *)

Module Legacy.

(** [(Math.abs(q) + Math.abs(r) + Math.abs(q + r)) / 2]; the numerator is
    always even, so the division is exact. *)
Definition getDistanceToCenter (q r : Z) : Z := (Z.abs q + Z.abs r + Z.abs (q + r)) / 2.

Record ScoredMove := mkScored { coord : HexCoord; score : Z }.

(** The filter of [validNeighbors]: not the opponent's coordinate, and not
    a rank-locked tile. *)
Definition isValidNeighbor (bot : Entity) (grid : Grid) (opponent : HexCoord) (n : HexCoord) : bool :=
  if (cq n =? cq opponent) && (cr n =? cr opponent) then false
  else negb (rankLocked (grid !! getHexKey (cq n) (cr n)) (playerLevel bot)).

(** The score of [scoredMoves]: [100] for a new tile ([!hex || hex.maxLevel
    === 0]), minus twice the distance to the centre. *)
Definition scoreMove (grid : Grid) (c : HexCoord) : Z :=
  let hex := grid !! getHexKey (cq c) (cr c) in
  let dist := getDistanceToCenter (cq c) (cr c) in
  let isNew := match hex with None => true | Some h => maxLevel h =? 0 end in
  (if isNew then 100 else 0) - dist * 2.

(** [scoredMoves.sort((a, b) => b.score - a.score)], stable. *)
Fixpoint insertByScore (m : ScoredMove) (l : list ScoredMove) : list ScoredMove :=
  match l with
  | [] => [m]
  | m' :: l' => if score m' <=? score m then m :: l else m' :: insertByScore m l'
  end.

Fixpoint sortByScore (l : list ScoredMove) : list ScoredMove :=
  match l with
  | [] => []
  | m :: l' => insertByScore m (sortByScore l')
  end.

Definition calculateBotMove (bot : Entity) (grid : Grid) (opponent : HexCoord) : option HexCoord :=
  let neighbors := getNeighbors (ent_q bot) (ent_r bot) in
  let validNeighbors := List.filter (isValidNeighbor bot grid opponent) neighbors in
  let scoredMoves := map (fun c => mkScored c (scoreMove grid c)) validNeighbors in
  match sortByScore scoredMoves with
  | m :: _ => Some (coord m)
  | [] => None
  end.

End Legacy.

(* ------------------------------------------------------------------ *)
(** ** The leaderboard ([updateLeaderboard], [src/store.ts], lines 788-811)

    [MOCK_LEADERBOARD] is a module-level array that [updateLeaderboard]
    mutates; here it is passed in and returned, and [Date.now()] is the
    parameter [now]. *)

Module Leaderboard.

Record LeaderboardEntry := mkLbEntry {
  nickname : string;
  avatarColor : string;
  avatarIcon : string;
  maxCoins : Z;
  maxLevel : Z;
  timestamp : Z
}.

(** [Array.prototype.findIndex], [-1] being [None]. *)
Fixpoint findIndex {A} (p : A -> bool) (l : list A) : option nat :=
  match l with
  | [] => None
  | x :: l' => if p x then Some 0%nat else option_map S (findIndex p l')
  end.

(** [MOCK_LEADERBOARD.sort((a, b) => b.maxCoins - a.maxCoins)], stable. *)
Fixpoint insertByMaxCoins (e : LeaderboardEntry) (l : list LeaderboardEntry) : list LeaderboardEntry :=
  match l with
  | [] => [e]
  | e' :: l' => if maxCoins e' <=? maxCoins e then e :: l else e' :: insertByMaxCoins e l'
  end.

Fixpoint sortByMaxCoins (l : list LeaderboardEntry) : list LeaderboardEntry :=
  match l with
  | [] => []
  | e :: l' => insertByMaxCoins e (sortByMaxCoins l')
  end.

(** [updateLeaderboard(nickname, avatarColor, avatarIcon, coins, level)]
    on the board [board], at time [now]. *)
Definition updateLeaderboard (now : Z) (nick color icon : string) (coins level : Z)
    (board : list LeaderboardEntry) : list LeaderboardEntry :=
  let board1 :=
    match findIndex (fun e => String.eqb (nickname e) nick) board with
    | Some existingIndex =>
        match board !! existingIndex with
        | Some entry =>
            if (maxCoins entry <=? coins) || (maxLevel entry <=? level) then
              <[existingIndex := mkLbEntry (nickname entry) color icon
                   (Z.max (maxCoins entry) coins) (Z.max (maxLevel entry) level) now]> board
            else board
        | None => board
        end
    | None => board ++ [mkLbEntry nick color icon coins level now]
    end in
  sortByMaxCoins board1.

(** The initial [MOCK_LEADERBOARD], created at time [t0]. *)
Definition MOCK_LEADERBOARD (t0 : Z) : list LeaderboardEntry :=
  [mkLbEntry "SENTINEL_AI" "#ef4444" "bot" 2500 12 (t0 - 100000);
   mkLbEntry "Vanguard" "#3b82f6" "shield" 1200 8 (t0 - 200000)].

End Leaderboard.

(* ------------------------------------------------------------------ *)
(** ** Accounts ([registerUser], [loginUser], [src/store.ts], lines 784 and
    941-953)

    [MOCK_USER_DB] is a plain object [{}]: reading [MOCK_USER_DB[nickname]]
    finds an own property first and otherwise a property inherited from
    [Object.prototype], whose values (functions, or the prototype object
    for [__proto__]) are all truthy and have no [password]. The store's
    [user] field is passed in and returned. *)

Module Accounts.

Record UserRecord := mkRecord {
  password : string;
  recordColor : string;
  recordIcon : string
}.

Record UserProfile := mkProfile {
  isAuthenticated : bool;
  isGuest : bool;
  nickname : string;
  avatarColor : string;
  avatarIcon : string
}.

Record AuthResponse := mkAuth { success : bool; message : option string }.

Abbreviation UserDb := (gmap string UserRecord).

(** The properties of [Object.prototype]. *)
Definition objectPrototypeNames : list string :=
  ["constructor"; "__defineGetter__"; "__defineSetter__"; "hasOwnProperty";
   "__lookupGetter__"; "__lookupSetter__"; "isPrototypeOf"; "propertyIsEnumerable";
   "toString"; "valueOf"; "__proto__"; "toLocaleString"].

(** What [MOCK_USER_DB[nickname]] reads: an own record, an inherited
    property, or [undefined] ([None]). *)
Inductive DbValue := OwnRecord (r : UserRecord) | Inherited.

Definition lookupDb (db : UserDb) (nick : string) : option DbValue :=
  match db !! nick with
  | Some r => Some (OwnRecord r)
  | None => if existsb (String.eqb nick) objectPrototypeNames then Some Inherited else None
  end.

(** [registerUser(nickname, password, avatarColor, avatarIcon)]: the new
    database, the new [user], and the response. *)
Definition registerUser (db : UserDb) (user : option UserProfile)
    (nick pass color icon : string) : UserDb * option UserProfile * AuthResponse :=
  match lookupDb db nick with
  | Some _ => (db, user, mkAuth false (Some "Nickname taken."))
  | None => (<[nick := mkRecord pass color icon]> db, Some (mkProfile true false nick color icon),
             mkAuth true None)
  end.

(** [loginUser(nickname, password)]: the new [user] and the response; an
    inherited property has no [password], and [undefined !== password]. *)
Definition loginUser (db : UserDb) (user : option UserProfile) (nick pass : string)
    : option UserProfile * AuthResponse :=
  match lookupDb db nick with
  | Some (OwnRecord r) =>
      if String.eqb (password r) pass then
        (Some (mkProfile true false nick (recordColor r) (recordIcon r)), mkAuth true None)
      else (user, mkAuth false (Some "Invalid credentials."))
  | Some Inherited => (user, mkAuth false (Some "Invalid credentials."))
  | None => (user, mkAuth false (Some "Invalid credentials."))
  end.

(** The databases the store can hold: [{}] at load, then registrations. *)
Inductive dbReachable : UserDb -> Prop :=
| dbReachable_init : dbReachable ∅
| dbReachable_register db user nick pass color icon :
    dbReachable db -> dbReachable (registerUser db user nick pass color icon).1.1.

End Accounts.

(* ------------------------------------------------------------------ *)
(** ** Sample states used by the concrete instances below *)

(** The state built by the store at time 0. *)
Definition sampleStart : GameState := generateInitialGameData None 0.

(** A level-1 tile whose next level is a record of level 2. *)
Definition sampleRecordHex : Hex := mkHex (0, 0) 0 0 1 1 0 true.

(** A bot at the origin with a full queue and rank 1. *)
Definition veteran : Entity :=
  mkEntity "bot-1" BOT 0 0 1 0 0 0 [(1, 0); (2, 0); (3, 0)] [] None.

(** The bot's tile one second before its level-2 record. *)
Definition sampleGrowGrid : Grid := {[(0, 0) := mkHex (0, 0) 0 0 1 1 9 true]}.

(** A virgin tile one second before its capture. *)
Definition sampleCaptureGrid : Grid := {[(0, 0) := mkHex (0, 0) 0 0 0 0 4 true]}.

(** A tile on which a bot has started growing. *)
Definition sampleBusyGrid : Grid := {[(0, 0) := mkHex (0, 0) 0 0 0 0 2 true]}.

(** Six level-1 tiles around the origin, as seen by a rank-0 agent. *)
Definition sampleRankRing : Grid :=
  list_to_map (map (fun n => (coordKey n, createInitialHex (cq n) (cr n) 1)) (getNeighbors 0 0)).

(** A level-40 tile next to the origin, nothing else explored: a rank-40
    agent may enter it, but the cheapest route costs 40. *)
Definition sampleHighNeighbour : Grid := {[(1, 0) := createInitialHex 1 0 40]}.

Definition origin : HexCoord := mkCoord 0 0 false.
Definition eastOfOrigin : HexCoord := mkCoord 1 0 false.

(** A player with no moves and a single coin, in a fresh game without bots. *)
Definition brokePlayer : Entity := setPurse initialPlayer 0 1.

Definition sampleBrokeState : GameState :=
  mkState GAME None None (grid sampleStart) brokePlayer [] PLAYING 0 false [] None true.

(** A bot with no moves and a single coin. *)
Definition brokeBot : Entity := setPurse veteran 0 1.

(** The player, standing on a grown tile, about to step east. *)
Definition sampleWalkState : GameState :=
  mkState GAME None None sampleGrowGrid (setQueue initialPlayer [eastOfOrigin]) [] PLAYING 0
    false [] None true.

(** A bot with five moves. *)
Definition walkerBot : Entity := setPurse veteran 5 0.

(** A fresh game, started. *)
Definition sampleTickState : GameState := withSession sampleStart GAME true PLAYING.

(** The level bounds of a tile, and of every tile of a grid. *)
Definition hexWf (h : Hex) : Prop := 0 <= currentLevel h <= maxLevel h.

Definition gridWf (g : Grid) : Prop := map_Forall (fun _ h => hexWf h) g.

(** One step of the exploration loop of [exploreAround]. *)
Definition exploreOne (g' : Grid) (n : HexCoord) : Grid :=
  match g' !! coordKey n with
  | Some _ => g'
  | None => <[coordKey n := createInitialHex (cq n) (cr n) 0]> g'
  end.

(** The capacity bound of an agent's upgrade queue. *)
Definition queueBounded (e : Entity) : Prop := (length (recentUpgrades e) <= 3)%nat.

(** An agent's purse: no negative moves, and never more coins than it has
    earned. *)
Definition purseOk (e : Entity) : Prop := 0 <= moves e /\ 0 <= coins e <= totalCoinsEarned e.

(** A pending confirmation charges nothing negative. *)
Definition pendingOk (pc : option PendingConfirmation) : Prop :=
  match pc with Some pc => 0 <= costMoves pc /\ 0 <= costCoins pc | None => True end.

(** The invariant of the pathfinder's search. *)
Section SearchPredicates.

Variable grid : Grid.
Variable playerRank : Z.
Variable obstacleKeys : gset key.
Variable startKey : key.

(** A coordinate the search may enter: not an obstacle, not rank-locked. *)
Definition passable (k : key) : Prop :=
  (k ∉ obstacleKeys) /\ rankLocked (grid !! k) playerRank = false.

Definition startOrPassable (k : key) : Prop := k = startKey \/ passable k.

Definition searchInv (st : SearchState) : Prop :=
  (forall e, In e (priorityQueue st) -> startOrPassable (pq_key e)) /\
  (forall k v, (previous st !! k = Some (Some v)) -> startOrPassable (coordKey v)).

End SearchPredicates.

(** Why the [4. PATH VALIDATION] loop passes over a candidate: it is the
    bot's own tile and growth there is refused, or it has no path, or
    its path costs more than the bot can spend. *)
Definition candidateRejected (bot : Entity) (grid : Grid) (obstacles : list HexCoord)
    (totalResources : Z) (c : ScoredCandidate) : Prop :=
  if (cq (sc_coord c) =? ent_q bot) && (cr (sc_coord c) =? ent_r bot)
  then canGrow (growthCheckAt grid bot) = false
  else match findPath (mkCoord (ent_q bot) (ent_r bot) false) (sc_coord c) grid
               (playerLevel bot) obstacles with
       | Some path => totalResources < pathCost grid path
       | None => True
       end.

(** A rank-1 bot with ten moves and ten coins. *)
Definition richVeteran : Entity := setPurse veteran 10 10.

(* ================================================================== *)
(** * Properties *)

(** ** Entity updates *)

Lemma setQueue_recent e mq : recentUpgrades (setQueue e mq) = recentUpgrades e.
Proof. reflexivity. Qed.
Lemma setPurse_recent e mv cn : recentUpgrades (setPurse e mv cn) = recentUpgrades e.
Proof. reflexivity. Qed.
Lemma setPos_recent e q r : recentUpgrades (setPos e q r) = recentUpgrades e.
Proof. reflexivity. Qed.
Lemma setMemory_recent e m : recentUpgrades (setMemory e m) = recentUpgrades e.
Proof. reflexivity. Qed.

(** ** Growth *)

Lemma recordQueue_bound recent id t :
  (length recent <= 3)%nat -> (length (recordQueue recent id t) <= 3)%nat.
Proof.
  intros H. unfold recordQueue. cbv zeta.
  destruct (t =? 1); [|cbn; lia].
  destruct (UPGRADE_LOCK_QUEUE_SIZE <? Z.of_nat (length (recent ++ [id]))) eqn:E.
  - destruct recent as [|a r]; cbn [app tail length]; [lia|].
    rewrite length_app. cbn [length] in *. lia.
  - apply Z.ltb_ge in E. unfold UPGRADE_LOCK_QUEUE_SIZE in E.
    rewrite length_app in E |- *. cbn [length] in *. lia.
Qed.

Lemma processEntityGrowth_recent g e flag :
  recentUpgrades (gr_ent (processEntityGrowth g e flag)) = recentUpgrades e \/
  exists hex, g !! entKey e = Some hex /\ maxLevel hex < currentLevel hex + 1 /\
    recentUpgrades (gr_ent (processEntityGrowth g e flag)) =
      recordQueue (recentUpgrades e) (hex_id hex) (currentLevel hex + 1).
Proof.
  unfold processEntityGrowth.
  destruct (negb flag || _); [left; reflexivity|].
  unfold entKey. destruct (g !! getHexKey (ent_q e) (ent_r e)) as [hex|] eqn:Eh; [|left; reflexivity].
  destruct (negb (canGrow _)); [left; reflexivity|].
  destruct (getSecondsToGrow _ <=? _); [|left; reflexivity].
  destruct (maxLevel hex <? currentLevel hex + 1) eqn:Er; cbn.
  - right. exists hex. split; [reflexivity|]. split; [apply Z.ltb_lt; exact Er|reflexivity].
  - left. reflexivity.
Qed.

Lemma processEntityGrowth_bound g e flag :
  (length (recentUpgrades e) <= 3)%nat ->
  (length (recentUpgrades (gr_ent (processEntityGrowth g e flag))) <= 3)%nat.
Proof.
  intros H. destruct (processEntityGrowth_recent g e flag) as [->|(hex & _ & _ & ->)].
  - exact H.
  - apply recordQueue_bound. exact H.
Qed.

Lemma processEntityGrowth_frame g e flag :
  ent_q (gr_ent (processEntityGrowth g e flag)) = ent_q e /\
  ent_r (gr_ent (processEntityGrowth g e flag)) = ent_r e /\
  ent_id (gr_ent (processEntityGrowth g e flag)) = ent_id e /\
  movementQueue (gr_ent (processEntityGrowth g e flag)) = movementQueue e.
Proof.
  unfold processEntityGrowth. repeat case_match; cbn; auto.
Qed.

(** ** The bots loop of [tick] *)

Lemma payStep_spec b cost b' :
  payStep b cost = Some b' -> exists mv cn, b' = setPurse b mv cn.
Proof.
  unfold payStep. intros H.
  destruct (cost <=? moves b); [injection H as <-; eauto|].
  destruct (_ <=? coins b); [injection H as <-; eauto|discriminate].
Qed.

Lemma botMoveStep_spec g occ oldKey b ns rest :
  recentUpgrades (snd (botMoveStep g occ oldKey b ns rest)) = recentUpgrades b /\
  (entKey (snd (botMoveStep g occ oldKey b ns rest)) = entKey b \/
   ((coordKey ns ∉ occ) /\ entKey (snd (botMoveStep g occ oldKey b ns rest)) = coordKey ns)).
Proof.
  unfold botMoveStep. case_bool_decide as Hocc; [cbn; auto|].
  destruct (payStep _ _) as [b2|] eqn:Ep; cbn; [|auto].
  apply payStep_spec in Ep as (mv & cn & ->). split; [reflexivity|].
  right. split; [exact Hocc|reflexivity].
Qed.

Lemma botAct_spec s np g occ oldKey b sg :
  recentUpgrades (snd (fst (botAct s np g occ oldKey b sg))) = recentUpgrades b /\
  (entKey (snd (fst (botAct s np g occ oldKey b sg))) = entKey b \/
   exists ns, (coordKey ns ∉ occ) /\ entKey (snd (fst (botAct s np g occ oldKey b sg))) = coordKey ns).
Proof.
  unfold botAct. destruct (movementQueue b) as [|ns rest].
  - destruct (calculateBotMove _ _ _ _ _) as [[|p ps]|]; cbn;
      try (destruct (_ <=? coins b)); cbn; auto.
  - destruct (upgrade ns).
    + destruct (g !! entKey b) as [bHex|]; [destruct (canGrow _)|]; cbn; auto.
    + pose proof (botMoveStep_spec g occ oldKey b ns rest) as [H1 H2].
      destruct (botMoveStep g occ oldKey b ns rest) as [g' b'] eqn:E. cbn in *.
      split; [exact H1|]. destruct H2 as [H2|[H2 H3]]; [left; exact H2|right; eauto].
Qed.

Lemma finishUpgrade_spec now bR last :
  recentUpgrades (fst (fst (finishUpgrade now bR last))) = recentUpgrades (gr_ent bR) /\
  entKey (fst (fst (finishUpgrade now bR last))) = entKey (gr_ent bR).
Proof.
  unfold finishUpgrade. destruct (finishedStep bR); [|auto].
  destruct (movementQueue (gr_ent bR)) as [|c rest]; [auto|].
  destruct (upgrade c); auto.
Qed.

Lemma botIteration_spec now s np lp bot :
  exists b3 b0 flag,
    newBots (botIteration now s np lp bot) = newBots lp ++ [b3] /\
    occupiedHexKeys (botIteration now s np lp bot) =
      (occupiedHexKeys lp ∖ {[entKey bot]}) ∪ {[entKey b3]} /\
    recentUpgrades b0 = recentUpgrades bot /\
    recentUpgrades b3 = recentUpgrades (gr_ent (processEntityGrowth (lp_grid lp) b0 flag)) /\
    (entKey b3 = entKey bot \/ entKey b3 ∉ occupiedHexKeys lp ∖ {[entKey bot]}).
Proof.
  unfold botIteration.
  set (b0 := match memory bot with
             | Some _ => setMemory bot (Some (mkMemory (Some (mkCoord (ent_q np) (ent_r np) false))))
             | None => bot end).
  assert (Hb0 : recentUpgrades b0 = recentUpgrades bot /\ entKey b0 = entKey bot)
    by (subst b0; destruct (memory bot); auto).
  set (flag := bool_decide (ent_id b0 ∈ growingBotIds s)).
  set (bR := processEntityGrowth (lp_grid lp) b0 flag).
  pose proof (processEntityGrowth_frame (lp_grid lp) b0 flag) as (Hq & Hr & _ & _).
  pose proof (finishUpgrade_spec now bR (lp_lastBotActionTime lp)) as [F1 F2].
  destruct (finishUpgrade now bR (lp_lastBotActionTime lp)) as [[b2 sg1] last1] eqn:Ef.
  cbn in F1, F2.
  assert (Hk2 : entKey b2 = entKey bot).
  { rewrite F2. destruct Hb0 as [_ <-]. unfold entKey. subst bR. rewrite Hq, Hr. reflexivity. }
  change (getHexKey (ent_q b0) (ent_r b0)) with (entKey b0).
  replace (entKey b0) with (entKey bot) by (symmetry; apply Hb0).
  destruct (negb sg1 && _).
  - pose proof (botAct_spec s np (gr_grid bR) (occupiedHexKeys lp ∖ {[entKey bot]})
                  (entKey bot) b2 sg1) as [A1 A2].
    destruct (botAct s np _ _ _ b2 sg1) as [[g3 b3] sg2]. cbn in A1, A2 |- *.
    exists b3, b0, flag. split; [reflexivity|]. split; [reflexivity|].
    split; [apply Hb0|]. split; [rewrite A1, F1; reflexivity|].
    destruct A2 as [A2|(ns & A2 & A3)]; [left; congruence|right; congruence].
  - cbn. exists b2, b0, flag. split; [reflexivity|]. split; [reflexivity|].
    split; [apply Hb0|]. split; [exact F1|]. left; exact Hk2.
Qed.

(** ** The queue bound on every agent *)

Lemma botsLoop_bounded now s np (bs : list Entity) lp :
  Forall queueBounded (newBots lp) -> Forall queueBounded bs ->
  Forall queueBounded (newBots (fold_left (botIteration now s np) bs lp)).
Proof.
  revert lp. induction bs as [|bot bs IH]; intros lp H1 H2; cbn; [exact H1|].
  inversion H2 as [|? ? Hb Hbs]; subst.
  apply IH; [|exact Hbs].
  destruct (botIteration_spec now s np lp bot) as (b3 & b0 & flag & E & _ & R0 & R3 & _).
  rewrite E. apply Forall_app. split; [exact H1|]. constructor; [|constructor].
  unfold queueBounded. rewrite R3. apply processEntityGrowth_bound. rewrite R0. exact Hb.
Qed.

Lemma tick_bounded now s :
  Forall queueBounded (agents s) -> Forall queueBounded (agents (tick now s)).
Proof.
  intros H. inversion H as [|? ? Hp Hbs]; subst.
  unfold tick. destruct (uiState s), (gameStatus s); try exact H.
  cbn. constructor.
  - apply processEntityGrowth_bound. exact Hp.
  - apply botsLoop_bounded; [constructor|exact Hbs].
Qed.

Lemma spawnBots_fresh i n sps g acc :
  Forall (fun b => recentUpgrades b = []) acc ->
  Forall (fun b => recentUpgrades b = []) (spawnBots i n sps g acc).2.
Proof.
  revert i sps g acc. induction n as [|n IH]; intros i sps g acc H; [destruct sps; exact H|].
  destruct sps as [|sp sps]; [exact H|]. cbn. apply IH.
  apply Forall_app. split; [exact H|]. constructor; [reflexivity|constructor].
Qed.

Lemma generateInitialGameData_fresh w now :
  Forall (fun b => recentUpgrades b = []) (agents (generateInitialGameData w now)).
Proof.
  unfold generateInitialGameData.
  match goal with |- context [spawnBots ?i ?n ?sps ?g ?acc] =>
    pose proof (spawnBots_fresh i n sps g acc (List.Forall_nil _)) as H;
    destruct (spawnBots i n sps g acc) as [g' bs] end.
  cbn in *. constructor; [reflexivity|exact H].
Qed.

Lemma fresh_bounded (l : list Entity) :
  Forall (fun b => recentUpgrades b = []) l -> Forall queueBounded l.
Proof.
  intros H. eapply Forall_impl; [exact H|]. intros b Hb. unfold queueBounded. rewrite Hb. cbn. lia.
Qed.

Lemma storeStep_bounded a s :
  Forall queueBounded (agents s) -> Forall queueBounded (agents (storeStep a s)).
Proof.
  intros H. inversion H as [|? ? Hp Hbs]; subst.
  destruct a; cbn [storeStep].
  - exact H.
  - apply fresh_bounded, generateInitialGameData_fresh.
  - apply fresh_bounded, generateInitialGameData_fresh.
  - apply fresh_bounded, generateInitialGameData_fresh.
  - unfold togglePlayerGrowth. repeat case_match; exact H.
  - unfold rechargeMove. repeat case_match; [exact H|constructor; assumption].
  - exact H.
  - unfold confirmPendingAction. repeat case_match; try exact H; constructor; assumption.
  - unfold movePlayer. repeat case_match; try exact H; constructor; assumption.
  - unfold processMovementStep. repeat case_match; try exact H; constructor; assumption.
  - apply tick_bounded. exact H.
Qed.

Lemma reachable_bounded s : reachable s -> Forall queueBounded (agents s).
Proof.
  induction 1.
  - apply fresh_bounded, generateInitialGameData_fresh.
  - apply storeStep_bounded. assumption.
Qed.

(** ** Level-up bookkeeping *)

Lemma processEntityGrowth_levelup g ent flag hex :
  g !! entKey ent = Some hex ->
  finishedStep (processEntityGrowth g ent flag) = true ->
  maxLevel hex < currentLevel hex + 1 ->
  recentUpgrades (gr_ent (processEntityGrowth g ent flag)) =
    recordQueue (recentUpgrades ent) (hex_id hex) (currentLevel hex + 1).
Proof.
  intros Hg Hf Hr. revert Hf. unfold processEntityGrowth.
  destruct (negb flag || _); [discriminate|].
  unfold entKey in Hg. rewrite Hg.
  destruct (negb (canGrow _)); [discriminate|].
  destruct (getSecondsToGrow _ <=? _); [|discriminate].
  intros _. cbn. apply Z.ltb_lt in Hr. rewrite Hr. reflexivity.
Qed.

(* ------------------------------------------------------------------ *)
(** ** C1: the growth conditions *)

(** C1. [checkGrowthCondition] allows [targetLevel = currentLevel + 1]
    when it restores a level ([targetLevel <= maxLevel]) or captures
    virgin land ([targetLevel = 1]).  For a record of level [>= 2] it
    allows growth, for every agent of the game, exactly when the queue
    [recentUpgrades] is full (three entries) and [playerLevel >=
    targetLevel - 1]; with fewer than three entries it refuses with
    [CYCLE_INCOMPLETE], whatever the rank.  The level-up that commits such
    a record empties [recentUpgrades]. *)
Theorem checkGrowthCondition_gates :
  (forall hex ent,
     currentLevel hex + 1 <= maxLevel hex \/ currentLevel hex + 1 = 1 ->
     canGrow (checkGrowthCondition hex ent) = true) /\
  (forall s ent hex,
     reachable s -> In ent (agents s) ->
     maxLevel hex < currentLevel hex + 1 -> 2 <= currentLevel hex + 1 ->
     (canGrow (checkGrowthCondition hex ent) = true <->
      length (recentUpgrades ent) = 3%nat /\ currentLevel hex + 1 - 1 <= playerLevel ent)) /\
  (forall hex ent,
     maxLevel hex < currentLevel hex + 1 -> 2 <= currentLevel hex + 1 ->
     (length (recentUpgrades ent) < 3)%nat ->
     checkGrowthCondition hex ent =
       mkCheck false (Some (CYCLE_INCOMPLETE (length (recentUpgrades ent))))) /\
  (forall g ent flag hex,
     g !! entKey ent = Some hex ->
     maxLevel hex < currentLevel hex + 1 -> 2 <= currentLevel hex + 1 ->
     finishedStep (processEntityGrowth g ent flag) = true ->
     recentUpgrades (gr_ent (processEntityGrowth g ent flag)) = []).
Proof.
  split; [|split; [|split]].
  - intros hex ent H. unfold checkGrowthCondition.
    destruct (maxLevel hex <? currentLevel hex + 1) eqn:E; [|reflexivity].
    apply Z.ltb_lt in E.
    destruct H as [H|H]; [lia|]. rewrite H. reflexivity.
  - intros s ent hex Hs Hin Hr H2.
    pose proof (reachable_bounded s Hs) as Hb. rewrite List.Forall_forall in Hb.
    specialize (Hb ent Hin). unfold queueBounded in Hb.
    unfold checkGrowthCondition.
    apply Z.ltb_lt in Hr. rewrite Hr.
    destruct (currentLevel hex + 1 =? 1) eqn:E1; [apply Z.eqb_eq in E1; lia|].
    unfold UPGRADE_LOCK_QUEUE_SIZE.
    destruct (Z.of_nat (length (recentUpgrades ent)) <? 3) eqn:E2.
    + apply Z.ltb_lt in E2. cbn. split; [discriminate|lia].
    + apply Z.ltb_ge in E2.
      destruct (playerLevel ent <? currentLevel hex + 1 - 1) eqn:E3.
      * apply Z.ltb_lt in E3. cbn. split; [discriminate|lia].
      * apply Z.ltb_ge in E3. cbn. split; [intros _; lia|reflexivity].
  - intros hex ent Hr H2 Hl. unfold checkGrowthCondition.
    apply Z.ltb_lt in Hr. rewrite Hr.
    destruct (currentLevel hex + 1 =? 1) eqn:E1; [apply Z.eqb_eq in E1; lia|].
    unfold UPGRADE_LOCK_QUEUE_SIZE.
    destruct (Z.of_nat (length (recentUpgrades ent)) <? 3) eqn:E2; [reflexivity|].
    apply Z.ltb_ge in E2. lia.
  - intros g ent flag hex Hg Hr H2 Hf.
    rewrite (processEntityGrowth_levelup g ent flag hex Hg Hf Hr).
    unfold recordQueue. destruct (currentLevel hex + 1 =? 1) eqn:E; [apply Z.eqb_eq in E; lia|].
    reflexivity.
Qed.

Lemma checkGrowthCondition_gates_witness :
  canGrow (checkGrowthCondition (createInitialHex 0 0 0) (player sampleStart)) = true /\
  (canGrow (checkGrowthCondition sampleRecordHex (player sampleStart)) = true <->
   length (recentUpgrades (player sampleStart)) = 3%nat /\
   currentLevel sampleRecordHex + 1 - 1 <= playerLevel (player sampleStart)) /\
  checkGrowthCondition sampleRecordHex (player sampleStart) =
    mkCheck false (Some (CYCLE_INCOMPLETE 0)) /\
  recentUpgrades (gr_ent (processEntityGrowth sampleGrowGrid veteran true)) = [].
Proof.
  destruct checkGrowthCondition_gates as (H1 & H2 & H3 & H4).
  split; [apply H1; right; reflexivity|].
  split; [apply (H2 sampleStart); [apply reachable_init|left; reflexivity|unfold sampleRecordHex; cbn; lia|unfold sampleRecordHex; cbn; lia]|].
  split; [apply H3; [unfold sampleRecordHex; cbn; lia|unfold sampleRecordHex; cbn; lia|vm_compute; lia]|].
  apply (H4 _ _ _ (mkHex (0, 0) 0 0 1 1 9 true));
    [reflexivity|cbn; lia|cbn; lia|vm_compute; reflexivity].
Defined.

(* ------------------------------------------------------------------ *)
(** ** C6: the bounded FIFO of recent upgrades *)

(** C6. In every state the store can reach, no agent holds more than three
    entries in [recentUpgrades]; a level-1 record capture made while the
    queue holds three entries drops the oldest and appends the tile id,
    so the queue keeps exactly three entries. *)
Theorem recentUpgrades_capacity :
  (forall s e, reachable s -> In e (agents s) -> (length (recentUpgrades e) <= 3)%nat) /\
  (forall g ent flag hex,
     g !! entKey ent = Some hex -> currentLevel hex = 0 -> maxLevel hex < 1 ->
     finishedStep (processEntityGrowth g ent flag) = true ->
     length (recentUpgrades ent) = 3%nat ->
     recentUpgrades (gr_ent (processEntityGrowth g ent flag)) =
       tail (recentUpgrades ent) ++ [hex_id hex] /\
     length (recentUpgrades (gr_ent (processEntityGrowth g ent flag))) = 3%nat).
Proof.
  split.
  - intros s e Hs Hin. pose proof (reachable_bounded s Hs) as Hb.
    rewrite List.Forall_forall in Hb. exact (Hb e Hin).
  - intros g ent flag hex Hg H0 Hm Hf Hl.
    assert (Hr : maxLevel hex < currentLevel hex + 1) by lia.
    rewrite (processEntityGrowth_levelup g ent flag hex Hg Hf Hr).
    unfold recordQueue. rewrite H0. cbv zeta. unfold UPGRADE_LOCK_QUEUE_SIZE.
    change (0 + 1 =? 1) with true. cbv iota.
    destruct (recentUpgrades ent) as [|a r] eqn:Er; [cbn in Hl; lia|].
    cbn [app tail length] in *. rewrite length_app. cbn [length].
    replace (3 <? Z.of_nat (S (length r + 1))) with true by (symmetry; apply Z.ltb_lt; lia).
    split; [reflexivity|]. rewrite length_app. cbn [length]. lia.
Qed.

Lemma recentUpgrades_capacity_witness :
  (length (recentUpgrades (player sampleStart)) <= 3)%nat /\
  recentUpgrades (gr_ent (processEntityGrowth sampleCaptureGrid veteran true)) =
    [(2, 0); (3, 0); (0, 0)] /\
  length (recentUpgrades (gr_ent (processEntityGrowth sampleCaptureGrid veteran true))) = 3%nat.
Proof.
  destruct recentUpgrades_capacity as [H1 H2].
  split; [apply (H1 sampleStart); [apply reachable_init|left; reflexivity]|].
  destruct (H2 sampleCaptureGrid veteran true (mkHex (0, 0) 0 0 0 0 4 true)) as [A B];
    [reflexivity|reflexivity|cbn; lia|vm_compute; reflexivity|reflexivity|].
  split; [rewrite A; reflexivity|exact B].
Defined.

(* ------------------------------------------------------------------ *)
(** ** C10: the commitment check of the AI *)

(** C10. When the bot's tile exists, has [progress > 0] and
    [maxLevel < 99], [calculateBotMove] returns the single in-place
    upgrade of the bot's coordinate, whatever the role, resources,
    obstacles or growth legality. *)
Theorem calculateBotMove_commitment (bot : Entity) (grid : Grid) (player : Entity)
    (winCondition : option WinCondition) (obstacles : list HexCoord) (h : Hex) :
  grid !! entKey bot = Some h -> 0 < progress h -> maxLevel h < 99 ->
  calculateBotMove bot grid player winCondition obstacles =
    Some [mkCoord (ent_q bot) (ent_r bot) true].
Proof.
  intros Hh Hp Hm. unfold calculateBotMove. rewrite Hh.
  apply Z.ltb_lt in Hp, Hm. rewrite Hp, Hm. reflexivity.
Qed.

Lemma calculateBotMove_commitment_witness :
  calculateBotMove veteran sampleBusyGrid initialPlayer None [] =
    Some [mkCoord 0 0 true].
Proof.
  apply (calculateBotMove_commitment veteran sampleBusyGrid initialPlayer None []
           (mkHex (0, 0) 0 0 0 0 2 true)); [reflexivity|cbn; lia|cbn; lia].
Defined.

(* ------------------------------------------------------------------ *)
(** ** The pathfinder's search invariant *)

Lemma insertByPriority_In x e l : In x (insertByPriority e l) <-> e = x \/ In x l.
Proof.
  induction l as [|e' l IH]; cbn; [tauto|].
  destruct (priority e <=? priority e'); cbn; [tauto|]. rewrite IH. tauto.
Qed.

Lemma sortByPriority_In x l : In x (sortByPriority l) <-> In x l.
Proof.
  induction l as [|e l IH]; cbn; [tauto|]. rewrite insertByPriority_In, IH. tauto.
Qed.

Lemma coordKey_getCoordinatesFromKey k : coordKey (getCoordinatesFromKey k) = k.
Proof. destruct k; reflexivity. Qed.

Section SearchInvariant.

Variable grid : Grid.
Variable playerRank : Z.
Variable obstacleKeys : gset key.
Variable startKey endKey : key.
Variable end_ : HexCoord.

Lemma relax_inv k currentCoord st neighbor :
  startOrPassable grid playerRank obstacleKeys startKey (coordKey currentCoord) -> searchInv grid playerRank obstacleKeys startKey st ->
  searchInv grid playerRank obstacleKeys startKey (relax grid playerRank obstacleKeys k currentCoord st neighbor).
Proof.
  intros Hc [Hq Hp]. unfold relax.
  case_bool_decide as Hob; [split; assumption|].
  destruct (rankLocked _ _) eqn:Hr; [split; assumption|].
  match goal with |- searchInv grid playerRank obstacleKeys startKey (if ?b then _ else _) => destruct b end;
    [|split; assumption].
  split; cbn.
  - intros e He. apply in_app_or in He as [He|[<-|[]]]; [exact (Hq e He)|].
    right. split; assumption.
  - intros k' v Hk. destruct (decide (k' = coordKey neighbor)) as [->|Hne].
    + rewrite lookup_insert_eq in Hk. injection Hk as <-. exact Hc.
    + rewrite lookup_insert_ne in Hk by congruence. exact (Hp k' v Hk).
Qed.

Lemma fold_relax_inv k currentCoord (ns : list HexCoord) st :
  startOrPassable grid playerRank obstacleKeys startKey (coordKey currentCoord) -> searchInv grid playerRank obstacleKeys startKey st ->
  searchInv grid playerRank obstacleKeys startKey (fold_left (relax grid playerRank obstacleKeys k currentCoord) ns st).
Proof.
  revert st. induction ns as [|n ns IH]; intros st Hc Hs; cbn; [exact Hs|].
  apply IH; [exact Hc|]. apply relax_inv; assumption.
Qed.

Lemma rebuild_passable fuel prev cur path :
  (forall c, In c path -> passable grid playerRank obstacleKeys (coordKey c)) ->
  (forall c, cur = Some c -> startOrPassable grid playerRank obstacleKeys startKey (coordKey c)) ->
  (forall k v, prev !! k = Some (Some v) -> startOrPassable grid playerRank obstacleKeys startKey (coordKey v)) ->
  forall c, In c (rebuild startKey fuel prev cur path) -> passable grid playerRank obstacleKeys (coordKey c).
Proof.
  revert cur path. induction fuel as [|fuel IH]; intros cur path Hpath Hcur Hprev; cbn;
    [exact Hpath|].
  destruct cur as [c|]; [|exact Hpath].
  case_bool_decide as Hs; [exact Hpath|].
  apply IH.
  - intros c' [<-|Hin]; [|exact (Hpath c' Hin)].
    destruct (Hcur c eq_refl) as [H|H]; [contradiction|exact H].
  - intros c' Hc'. destruct (prev !! coordKey c) as [[v|]|] eqn:E; cbn in Hc'; try discriminate.
    injection Hc' as <-. exact (Hprev _ _ E).
  - exact Hprev.
Qed.

Lemma dijkstra_S fuel st :
  dijkstra grid playerRank obstacleKeys startKey endKey end_ (S fuel) st =
  match priorityQueue st with
  | [] => Exhausted
  | _ :: _ =>
      match sortByPriority (priorityQueue st) with
      | [] => Exhausted
      | e :: rest =>
          if bool_decide (pq_key e = endKey) then
            Found (rebuild startKey (S (size (previous st))) (previous st) (Some end_) [])
          else
            dijkstra grid playerRank obstacleKeys startKey endKey end_ fuel
              (fold_left (relax grid playerRank obstacleKeys (pq_key e)
                            (getCoordinatesFromKey (pq_key e)))
                 (getNeighbors (cq (getCoordinatesFromKey (pq_key e)))
                    (cr (getCoordinatesFromKey (pq_key e))))
                 (mkSearch (distances st) (previous st) rest))
      end
  end.
Proof. reflexivity. Qed.

Lemma dijkstra_found_passable fuel st path :
  endKey <> startKey -> coordKey end_ = endKey -> searchInv grid playerRank obstacleKeys startKey st ->
  dijkstra grid playerRank obstacleKeys startKey endKey end_ fuel st = Found path ->
  forall c, In c path -> passable grid playerRank obstacleKeys (coordKey c).
Proof.
  intros Hne Hend. revert st. induction fuel as [|fuel IH]; intros st [Hq Hp] Hd;
    [cbn in Hd; destruct (priorityQueue st); discriminate|].
  rewrite dijkstra_S in Hd. destruct (priorityQueue st) as [|e0 q0] eqn:Epq; [discriminate|].
  destruct (sortByPriority (e0 :: q0)) as [|e rest] eqn:Es; [discriminate|].
  assert (He : In e (e0 :: q0)).
  { rewrite <- sortByPriority_In, Es. left. reflexivity. }
  case_bool_decide as Hk.
  - assert (Hpath : rebuild startKey (S (size (previous st))) (previous st) (Some end_) [] = path)
      by congruence.
    rewrite <- Hpath. apply rebuild_passable; [intros ? []| |exact Hp].
    intros c Hc. injection Hc as <-. rewrite Hend. right.
    destruct (Hq e He) as [H|H]; [congruence|]. rewrite <- Hk. exact H.
  - eapply IH; [|exact Hd]. apply fold_relax_inv.
    + rewrite coordKey_getCoordinatesFromKey. exact (Hq e He).
    + split; cbn; [|exact Hp].
      intros e' He'. apply Hq. rewrite <- sortByPriority_In, Es. right. exact He'.
Qed.

End SearchInvariant.

Lemma searchInv_initial grid playerRank obstacleKeys startKey :
  searchInv grid playerRank obstacleKeys startKey
    (mkSearch {[startKey := 0]} {[startKey := None]} [mkEntry startKey 0]).
Proof.
  split; cbn.
  - intros e [<-|[]]. left. reflexivity.
  - intros k v Hk. apply lookup_singleton_Some in Hk as [_ Hk]. discriminate.
Qed.

Lemma cubeDistance_same q r : cubeDistance (q, r) (q, r) = 0.
Proof.
  unfold cubeDistance. cbn. replace (q + r - q - r) with 0 by lia.
  rewrite !Z.sub_diag. reflexivity.
Qed.

Lemma obstacle_keys_In (obstacles : list HexCoord) k :
  k ∈ (list_to_set (map coordKey obstacles) : gset key) <-> In k (map coordKey obstacles).
Proof. rewrite elem_of_list_to_set. apply list_elem_of_In. Qed.

(** C3 (amended).  A destination in the obstacle list gives no path.  Every
    coordinate of a returned path lies outside the obstacle list.  Either
    no coordinate of the path is rank-locked, or the path is the
    single-step fallback [[end_]] to an adjacent destination, whose tile
    is not checked against the rank. *)
Theorem findPath_avoids_obstacles start end_ grid playerRank obstacles :
  (In (coordKey end_) (map coordKey obstacles) ->
   findPath start end_ grid playerRank obstacles = None) /\
  (forall path, findPath start end_ grid playerRank obstacles = Some path ->
   (forall c, In c path -> ~ In (coordKey c) (map coordKey obstacles)) /\
   ((forall c, In c path -> rankLocked (grid !! coordKey c) playerRank = false) \/
    (path = [end_] /\ cubeDistance (cq start, cr start) (cq end_, cr end_) = 1))).
Proof.
  unfold findPath. cbv zeta. split.
  - intros Hin. case_bool_decide; [reflexivity|].
    case_bool_decide as Hob; [reflexivity|].
    exfalso. apply Hob, obstacle_keys_In. exact Hin.
  - intros path. case_bool_decide as Hse; [discriminate|].
    case_bool_decide as Hob; [discriminate|].
    destruct (dijkstra _ _ _ _ _ _ _ _) as [p| |] eqn:Ed; intros Hp; [| |discriminate].
    + injection Hp as <-.
      pose proof (dijkstra_found_passable _ _ _ _ _ _ _ _ _ (not_eq_sym Hse) eq_refl
                    (searchInv_initial _ _ _ _) Ed) as Hpass.
      split; [|left]; intros c Hc; destruct (Hpass c Hc) as [H1 H2]; [|exact H2].
      intros Hin. apply H1, obstacle_keys_In. exact Hin.
    + destruct (_ =? 1) eqn:E1; cbn in Hp; [|discriminate].
      injection Hp as <-. apply Z.eqb_eq in E1. split; [|right; split; [reflexivity|exact E1]].
      intros c [<-|[]] Hin. apply Hob, obstacle_keys_In. exact Hin.
Qed.

(** C3 counterexample.  A rank-0 agent at the origin, surrounded by level-1
    tiles, gets the one-step path to the level-1 tile east of it: the
    search finds no route, the queue empties, and the adjacent fallback
    returns [[end_]] without checking the rank.  So "no coordinate of the
    returned path is rank-locked" fails. *)
Lemma findPath_rank_fallback_counterexample :
  findPath origin eastOfOrigin sampleRankRing 0 [] = Some [eastOfOrigin] /\
  rankLocked (sampleRankRing !! coordKey eastOfOrigin) 0 = true.
Proof. split; vm_compute; reflexivity. Qed.

Lemma findPath_avoids_obstacles_witness :
  findPath origin eastOfOrigin sampleRankRing 0 [eastOfOrigin] = None /\
  findPath origin eastOfOrigin sampleRankRing 0 [] = Some [eastOfOrigin] /\
  (forall c, In c [eastOfOrigin] -> ~ In (coordKey c) (map coordKey [])) /\
  ((forall c, In c [eastOfOrigin] -> rankLocked (sampleRankRing !! coordKey c) 0 = false) \/
   ([eastOfOrigin] = [eastOfOrigin] /\
    cubeDistance (cq origin, cr origin) (cq eastOfOrigin, cr eastOfOrigin) = 1)).
Proof.
  destruct (findPath_avoids_obstacles origin eastOfOrigin sampleRankRing 0 [eastOfOrigin])
    as [Hnone _].
  destruct (findPath_avoids_obstacles origin eastOfOrigin sampleRankRing 0 []) as [_ Hsome].
  assert (E : findPath origin eastOfOrigin sampleRankRing 0 [] = Some [eastOfOrigin])
    by (vm_compute; reflexivity).
  split; [apply Hnone; left; reflexivity|].
  split; [exact E|]. exact (Hsome _ E).
Defined.

(** C4 counterexample.  The level-40 tile east of the origin is adjacent,
    not an obstacle and not rank-locked for a rank-40 agent, yet the
    search stops at its iteration cap before it pops that tile (every
    cheaper coordinate of the unbounded grid comes first), and [findPath]
    returns no path: the fallback is only reached when the queue empties. *)
Lemma findPath_adjacent_cap_counterexample :
  cubeDistance (cq origin, cr origin) (cq eastOfOrigin, cr eastOfOrigin) = 1 /\
  rankLocked (sampleHighNeighbour !! coordKey eastOfOrigin) 40 = false /\
  findPath origin eastOfOrigin sampleHighNeighbour 40 [] = None.
Proof. split; [reflexivity|]. split; vm_compute; reflexivity. Qed.

(** C4 (amended).  For an adjacent destination outside the obstacle list,
    [findPath] returns no path exactly when the search stops at its
    iteration cap; otherwise it returns a path (the fallback [[end_]] if
    the queue empties first). *)
Theorem findPath_adjacent_unless_cap start end_ grid playerRank obstacles :
  cubeDistance (cq start, cr start) (cq end_, cr end_) = 1 ->
  ~ In (coordKey end_) (map coordKey obstacles) ->
  findPath start end_ grid playerRank obstacles = None <->
  dijkstra grid playerRank (list_to_set (map coordKey obstacles)) (coordKey start)
    (coordKey end_) end_ MAX_ITERATIONS
    (mkSearch {[coordKey start := 0]} {[coordKey start := None]}
       [mkEntry (coordKey start) 0]) = CapExceeded.
Proof.
  intros Hd Hin. unfold findPath. cbv zeta.
  case_bool_decide as Hse.
  - exfalso. destruct start as [q r u], end_ as [q' r' u'].
    unfold coordKey, getHexKey in Hse; cbn in Hse, Hd. injection Hse as <- <-.
    rewrite cubeDistance_same in Hd. discriminate.
  - case_bool_decide as Hob; [exfalso; apply Hin, obstacle_keys_In; exact Hob|].
    destruct (dijkstra _ _ _ _ _ _ _ _); split; intros H; try discriminate; try reflexivity.
    rewrite Hd in H. discriminate.
Qed.

Lemma findPath_adjacent_unless_cap_witness :
  findPath origin eastOfOrigin sampleHighNeighbour 40 [] = None /\
  dijkstra sampleHighNeighbour 40 (list_to_set (map coordKey [])) (coordKey origin)
    (coordKey eastOfOrigin) eastOfOrigin MAX_ITERATIONS
    (mkSearch {[coordKey origin := 0]} {[coordKey origin := None]}
       [mkEntry (coordKey origin) 0]) = CapExceeded.
Proof.
  assert (E : findPath origin eastOfOrigin sampleHighNeighbour 40 [] = None)
    by (vm_compute; reflexivity).
  split; [exact E|].
  apply (findPath_adjacent_unless_cap origin eastOfOrigin sampleHighNeighbour 40 []);
    [reflexivity|intros []|exact E].
Defined.

Lemma setQueue_setQueue b l l' : setQueue (setQueue b l) l' = setQueue b l'.
Proof. destruct b; reflexivity. Qed.

(** C9.  An agent with no moves and one coin cannot pay for a step of cost 1
    (it would need 2 coins).  A bot's movement step then leaves the grid
    as it is and only clears the bot's queue, whether or not the target is
    occupied: position, moves and coins are unchanged.  The player's
    [movePlayer] towards a target whose path costs 1 only raises the
    "Need 1 moves" notice: no queue, no pending confirmation, no payment. *)
Theorem insufficient_funds_refused :
  (forall newGrid occupied oldKey b nextStep rest,
     moves b = 0 -> coins b = 1 -> stepCost (newGrid !! coordKey nextStep) = 1 ->
     botMoveStep newGrid occupied oldKey b nextStep rest = (newGrid, setQueue b []) /\
     ent_q (setQueue b []) = ent_q b /\ ent_r (setQueue b []) = ent_r b /\
     moves (setQueue b []) = 0 /\ coins (setQueue b []) = 1) /\
  (forall state tq tr path,
     uiState state = GAME -> movementQueue (player state) = [] ->
     ~ (tq = ent_q (player state) /\ tr = ent_r (player state)) ->
     rankLocked (grid state !! getHexKey tq tr) (playerLevel (player state)) = false ->
     findPath (mkCoord (ent_q (player state)) (ent_r (player state)) false)
       (mkCoord tq tr false) (grid state) (playerLevel (player state))
       (map (fun b => mkCoord (ent_q b) (ent_r b) false) (bots state)) = Some path ->
     pathCost (grid state) path = 1 ->
     moves (player state) = 0 -> coins (player state) = 1 ->
     movePlayer tq tr state = setToast state (NeedMoves 1)).
Proof.
  split.
  - intros newGrid occupied oldKey b nextStep rest Hm Hc Hcost.
    split; [|cbn; repeat split; assumption].
    unfold botMoveStep. cbv zeta. case_bool_decide; [reflexivity|].
    rewrite Hcost. unfold payStep. cbn [moves coins setQueue]. rewrite Hm, Hc.
    cbn. rewrite setQueue_setQueue. reflexivity.
  - intros state tq tr path Hui Hq Hne Hr Hp Hcost Hm Hc.
    unfold movePlayer, queueEmpty. rewrite Hui, Hq. cbn [UIState_eqb negb orb].
    destruct (Z.eqb_spec tq (ent_q (player state))) as [E1|E1];
      destruct (Z.eqb_spec tr (ent_r (player state))) as [E2|E2];
      [exfalso; tauto| | |]; cbn [andb]; rewrite Hr, Hp; cbv zeta;
      rewrite Hcost, Hm, Hc; reflexivity.
Qed.

Lemma insufficient_funds_refused_witness :
  botMoveStep (grid sampleStart) ∅ (0, 0) brokeBot eastOfOrigin [] =
    (grid sampleStart, setQueue brokeBot []) /\
  movePlayer 1 0 sampleBrokeState = setToast sampleBrokeState (NeedMoves 1).
Proof.
  destruct insufficient_funds_refused as [Hbot Hplayer]. split.
  - apply (Hbot (grid sampleStart) ∅ (0, 0) brokeBot eastOfOrigin []);
      vm_compute; reflexivity.
  - apply (Hplayer sampleBrokeState 1 0 [eastOfOrigin]);
      [reflexivity|reflexivity|vm_compute; intros [H _]; discriminate
      |vm_compute; reflexivity|vm_compute; reflexivity|vm_compute; reflexivity
      |reflexivity|reflexivity].
Defined.

Lemma exploreAround_keeps g c k h : g !! k = Some h -> exploreAround g c !! k = Some h.
Proof.
  unfold exploreAround. generalize (getNeighbors (cq c) (cr c) ++ [c]) as l.
  intros l. revert g. induction l as [|n l IH]; intros g Hk; cbn; [exact Hk|].
  apply IH. destruct (g !! coordKey n) eqn:E; [exact Hk|].
  rewrite lookup_insert_ne; [exact Hk|congruence].
Qed.

Lemma leaveHex_here g k h :
  g !! k = Some h ->
  leaveHex g k !! k = Some (mkHex (hex_id h) (hex_q h) (hex_r h) 0 (maxLevel h) 0 (revealed h)).
Proof. intros Hk. unfold leaveHex. rewrite Hk, lookup_insert_eq. reflexivity. Qed.

Lemma leaveHex_other g k k' : k' <> k -> leaveHex g k !! k' = g !! k'.
Proof.
  intros Hne. unfold leaveHex. destruct (g !! k); [|reflexivity].
  rewrite lookup_insert_ne; [reflexivity|congruence].
Qed.

Lemma find_collision_none (bots : list Entity) (c : HexCoord) :
  Forall (fun b => ~ (ent_q b = cq c /\ ent_r b = cr c)) bots ->
  find (fun b => (ent_q b =? cq c) && (ent_r b =? cr c)) bots = None.
Proof.
  induction 1 as [|b l Hb _ IH]; cbn; [reflexivity|].
  destruct (Z.eqb_spec (ent_q b) (cq c)); destruct (Z.eqb_spec (ent_r b) (cr c));
    cbn; [tauto|exact IH|exact IH|exact IH].
Qed.

(** C7.  When an agent commits a step, the tile it leaves (if explored)
    gets [currentLevel] and [progress] 0 and keeps its id, coordinates,
    [maxLevel] and [revealed] flag; every other tile already in the grid is
    unchanged (exploration only adds missing tiles).  First for the
    player's [processMovementStep] when no bot stands on the next step,
    then for a bot's step in [tick] when the target is free and paid for. *)
Theorem departure_resets_tile :
  (forall state nextStep rest,
     movementQueue (player state) = nextStep :: rest ->
     Forall (fun b => ~ (ent_q b = cq nextStep /\ ent_r b = cr nextStep)) (bots state) ->
     (forall h, grid state !! entKey (player state) = Some h ->
        grid (processMovementStep state) !! entKey (player state) =
          Some (mkHex (hex_id h) (hex_q h) (hex_r h) 0 (maxLevel h) 0 (revealed h))) /\
     (forall k h, k <> entKey (player state) -> grid state !! k = Some h ->
        grid (processMovementStep state) !! k = Some h)) /\
  (forall newGrid occupied oldKey b nextStep rest,
     coordKey nextStep ∉ occupied ->
     payStep (setQueue b rest) (stepCost (newGrid !! coordKey nextStep)) <> None ->
     (forall h, newGrid !! oldKey = Some h ->
        (botMoveStep newGrid occupied oldKey b nextStep rest).1 !! oldKey =
          Some (mkHex (hex_id h) (hex_q h) (hex_r h) 0 (maxLevel h) 0 (revealed h))) /\
     (forall k h, k <> oldKey -> newGrid !! k = Some h ->
        (botMoveStep newGrid occupied oldKey b nextStep rest).1 !! k = Some h)).
Proof.
  split.
  - intros state nextStep rest Hq Hfree.
    unfold processMovementStep. rewrite Hq, (find_collision_none _ _ Hfree). cbn.
    split.
    + intros h Hh. apply exploreAround_keeps, leaveHex_here, Hh.
    + intros k h Hne Hh. apply exploreAround_keeps. rewrite leaveHex_other; assumption.
  - intros newGrid occupied oldKey b nextStep rest Hocc Hpay.
    unfold botMoveStep. cbv zeta. rewrite bool_decide_false by exact Hocc.
    destruct (payStep _ _) as [b2|]; [|contradiction]. cbn [fst].
    split.
    + intros h Hh. apply exploreAround_keeps, leaveHex_here, Hh.
    + intros k h Hne Hh. apply exploreAround_keeps. rewrite leaveHex_other; assumption.
Qed.

Lemma departure_resets_tile_witness :
  grid (processMovementStep sampleWalkState) !! (0, 0) =
    Some (mkHex (0, 0) 0 0 0 1 0 true) /\
  (botMoveStep sampleGrowGrid ∅ (0, 0) walkerBot eastOfOrigin []).1 !! (0, 0) =
    Some (mkHex (0, 0) 0 0 0 1 0 true).
Proof.
  destruct departure_resets_tile as [Hplayer Hbot]. split.
  - destruct (Hplayer sampleWalkState eastOfOrigin [] eq_refl (List.Forall_nil _))
      as [Hhere _].
    apply (Hhere (mkHex (0, 0) 0 0 1 1 9 true)). reflexivity.
  - destruct (Hbot sampleGrowGrid ∅ (0, 0) walkerBot eastOfOrigin [])
      as [Hhere _]; [apply not_elem_of_empty|vm_compute; discriminate|].
    apply (Hhere (mkHex (0, 0) 0 0 1 1 9 true)). reflexivity.
Defined.

Lemma key_replace_distinct (L R : list key) (x y : key) (occ : gset key) :
  NoDup (L ++ x :: R) -> occ = list_to_set (L ++ x :: R) ->
  (y = x \/ y ∉ occ ∖ {[x]}) ->
  NoDup (L ++ y :: R) /\ (occ ∖ {[x]}) ∪ {[y]} = list_to_set (L ++ y :: R).
Proof.
  intros Hnd -> Hy.
  pose proof Hnd as Hnd'.
  apply NoDup_app in Hnd' as (HL & HLR & HxR). apply NoDup_cons in HxR as [HxR HR].
  assert (HxL : x ∉ L) by (intros Hx; apply (HLR x Hx); left).
  split.
  - destruct Hy as [->|Hy]; [exact Hnd|].
    apply NoDup_app. split; [exact HL|]. split.
    + intros z Hz Hz'. apply elem_of_cons in Hz' as [->|Hz'].
      * apply Hy. set_solver.
      * apply (HLR z Hz). right. exact Hz'.
    + apply NoDup_cons. split; [|exact HR]. intros Hr. apply Hy. set_solver.
  - set_solver.
Qed.

Lemma botsLoop_distinct_fold now s np (todo : list Entity) lp :
  NoDup (entKey np :: map entKey (newBots lp) ++ map entKey todo) ->
  occupiedHexKeys lp = list_to_set (entKey np :: map entKey (newBots lp) ++ map entKey todo) ->
  NoDup (entKey np :: map entKey (newBots (fold_left (botIteration now s np) todo lp))).
Proof.
  revert lp. induction todo as [|bot todo IH]; intros lp Hnd Hocc; cbn [fold_left].
  - rewrite app_nil_r in Hnd. exact Hnd.
  - destruct (botIteration_spec now s np lp bot) as (b3 & b0 & fl & Hnb & Hocc' & _ & _ & Hpos).
    rewrite app_comm_cons, map_cons in Hnd, Hocc.
    destruct (key_replace_distinct _ _ _ (entKey b3) _ Hnd Hocc Hpos) as [Hnd2 Hocc2].
    apply IH.
    + rewrite Hnb, map_app, <- app_assoc. exact Hnd2.
    + rewrite Hocc', Hocc2, Hnb, map_app, <- app_assoc. reflexivity.
Qed.

Lemma tick_distinct now s :
  NoDup (map entKey (agents s)) -> NoDup (map entKey (agents (tick now s))).
Proof.
  intros Hnd. unfold tick.
  destruct (uiState s), (gameStatus s); try exact Hnd.
  cbv zeta. cbn [agents player bots map].
  destruct (processEntityGrowth_frame (grid s) (player s) (isPlayerGrowing s))
    as (Hq & Hr & _).
  assert (Hk : entKey (gr_ent (processEntityGrowth (grid s) (player s) (isPlayerGrowing s)))
               = entKey (player s)) by (unfold entKey; rewrite Hq, Hr; reflexivity).
  unfold botsLoop. apply botsLoop_distinct_fold; cbn [newBots map app list_to_set]; rewrite Hk;
    [exact Hnd|reflexivity].
Qed.

Lemma processMovementStep_distinct s :
  NoDup (map entKey (agents s)) -> NoDup (map entKey (agents (processMovementStep s))).
Proof.
  intros Hnd. unfold processMovementStep.
  destruct (movementQueue (player s)) as [|ns rest]; [exact Hnd|].
  destruct (find _ (bots s)) as [hit|] eqn:Ef; cbn in Hnd |- *; [exact Hnd|].
  apply NoDup_cons in Hnd as [_ Hbots]. apply NoDup_cons. split; [|exact Hbots].
  intros Hin. apply list_elem_of_In, in_map_iff in Hin as (b & Hb & Hin).
  pose proof (find_none _ _ Ef b Hin) as Hf. cbn in Hf.
  unfold entKey, getHexKey in Hb. injection Hb as Hbq Hbr.
  rewrite Hbq, Hbr, !Z.eqb_refl in Hf. discriminate.
Qed.

(** C2.  If the player and the bots stand on pairwise distinct coordinates,
    they still do after a [tick] and after the player's
    [processMovementStep].  A bot whose next step is in the current
    occupancy set only has its queue cleared.  A player whose next step
    holds a bot only has its queue cleared, with the blocked notice. *)
Theorem agents_stay_apart :
  (forall now s, NoDup (map entKey (agents s)) -> NoDup (map entKey (agents (tick now s)))) /\
  (forall s, NoDup (map entKey (agents s)) ->
     NoDup (map entKey (agents (processMovementStep s)))) /\
  (forall newGrid occupied oldKey b nextStep rest,
     coordKey nextStep ∈ occupied ->
     botMoveStep newGrid occupied oldKey b nextStep rest = (newGrid, setQueue b [])) /\
  (forall s nextStep rest,
     movementQueue (player s) = nextStep :: rest ->
     Exists (fun b => ent_q b = cq nextStep /\ ent_r b = cr nextStep) (bots s) ->
     exists hit, processMovementStep s =
       setToast (setPlayer s (setQueue (player s) [])) (PathBlockedBySentinel (ent_id hit))).
Proof.
  split; [exact tick_distinct|]. split; [exact processMovementStep_distinct|]. split.
  - intros newGrid occupied oldKey b nextStep rest Hocc.
    unfold botMoveStep. cbv zeta. rewrite bool_decide_true by exact Hocc. reflexivity.
  - intros s nextStep rest Hq Hex. unfold processMovementStep. rewrite Hq.
    destruct (find _ (bots s)) as [hit|] eqn:Ef; [exists hit; reflexivity|].
    exfalso. apply List.Exists_exists in Hex as (b & Hin & Hbq & Hbr).
    pose proof (find_none _ _ Ef b Hin) as Hf. cbn in Hf.
    rewrite Hbq, Hbr, !Z.eqb_refl in Hf. discriminate.
Qed.

Lemma agents_stay_apart_witness :
  NoDup (map entKey (agents (tick 2000 sampleTickState))) /\
  NoDup (map entKey (agents (processMovementStep sampleWalkState))) /\
  botMoveStep sampleGrowGrid {[(1, 0)]} (0, 0) walkerBot eastOfOrigin [] =
    (sampleGrowGrid, setQueue walkerBot []).
Proof.
  destruct agents_stay_apart as (Htick & Hmove & Hbot & _).
  split; [apply Htick; refine (bool_decide_unpack _ _); vm_compute; reflexivity|].
  split; [apply Hmove; refine (bool_decide_unpack _ _); vm_compute; reflexivity|].
  apply Hbot. apply elem_of_singleton. reflexivity.
Defined.

(** ** The level bounds of every tile *)

Lemma createInitialHex_wf q r : hexWf (createInitialHex q r 0).
Proof. unfold hexWf; cbn; lia. Qed.

Lemma exploreAround_wf g c : gridWf g -> gridWf (exploreAround g c).
Proof.
  unfold exploreAround. generalize (getNeighbors (cq c) (cr c) ++ [c]) as l.
  intros l. revert g. induction l as [|n l IH]; intros g Hg; cbn; [exact Hg|].
  apply IH. destruct (g !! coordKey n); [exact Hg|].
  apply map_Forall_insert_2; [apply createInitialHex_wf|exact Hg].
Qed.

Lemma leaveHex_wf g k : gridWf g -> gridWf (leaveHex g k).
Proof.
  intros Hg. unfold leaveHex. destruct (g !! k) as [h|] eqn:E; [|exact Hg].
  apply map_Forall_insert_2; [|exact Hg].
  pose proof (map_Forall_lookup_1 _ _ _ _ Hg E) as Hh. unfold hexWf in *; cbn; lia.
Qed.

Lemma processEntityGrowth_wf g e flag : gridWf g -> gridWf (gr_grid (processEntityGrowth g e flag)).
Proof.
  intros Hg. unfold processEntityGrowth.
  destruct (negb flag || _); [exact Hg|].
  destruct (g !! getHexKey (ent_q e) (ent_r e)) as [hex|] eqn:Eh; [|exact Hg].
  pose proof (map_Forall_lookup_1 _ _ _ _ Hg Eh) as Hh. unfold hexWf in Hh.
  destruct (negb (canGrow _)); [exact Hg|].
  destruct (getSecondsToGrow _ <=? _); cbn;
    (apply map_Forall_insert_2; [|exact Hg]); unfold hexWf; cbn; [|lia].
  destruct (maxLevel hex <? currentLevel hex + 1) eqn:Er; cbn; [lia|].
  apply Z.ltb_ge in Er. lia.
Qed.

Lemma botMoveStep_wf g occ oldKey b ns rest :
  gridWf g -> gridWf (botMoveStep g occ oldKey b ns rest).1.
Proof.
  intros Hg. unfold botMoveStep. cbv zeta.
  case_bool_decide; [exact Hg|]. destruct (payStep _ _); [|exact Hg].
  apply exploreAround_wf, leaveHex_wf, Hg.
Qed.

Lemma botAct_wf s np g occ oldKey b sg : gridWf g -> gridWf (fst (fst (botAct s np g occ oldKey b sg))).
Proof.
  intros Hg. unfold botAct. destruct (movementQueue b) as [|ns rest].
  - destruct (calculateBotMove _ _ _ _ _) as [[|p ps]|]; cbn;
      try (destruct (_ <=? coins b)); exact Hg.
  - destruct (upgrade ns).
    + destruct (g !! entKey b) as [bHex|]; [destruct (canGrow _)|]; exact Hg.
    + pose proof (botMoveStep_wf g occ oldKey b ns rest Hg) as H.
      destruct (botMoveStep g occ oldKey b ns rest) as [g' b']. exact H.
Qed.

Lemma botIteration_wf now s np lp bot : gridWf (lp_grid lp) -> gridWf (lp_grid (botIteration now s np lp bot)).
Proof.
  intros Hg. unfold botIteration.
  match goal with |- context [processEntityGrowth (lp_grid lp) ?b0 ?fl] =>
    pose proof (processEntityGrowth_wf (lp_grid lp) b0 fl Hg) as H1;
    destruct (finishUpgrade now (processEntityGrowth (lp_grid lp) b0 fl) (lp_lastBotActionTime lp))
      as [[b2 sg1] last1] end.
  destruct (negb sg1 && _); cbn; [|exact H1].
  match goal with |- context [botAct ?s ?np ?g ?occ ?k ?b ?sg] =>
    pose proof (botAct_wf s np g occ k b sg H1) as H2; destruct (botAct s np g occ k b sg) as [[g3 b3] sg2]
  end. exact H2.
Qed.

Lemma tick_wf now s : gridWf (grid s) -> gridWf (grid (tick now s)).
Proof.
  intros Hg. unfold tick. destruct (uiState s), (gameStatus s); try exact Hg.
  cbn [grid]. unfold botsLoop.
  match goal with |- gridWf (lp_grid (fold_left _ _ ?lp0)) =>
    assert (H0 : gridWf (lp_grid lp0)) by (apply processEntityGrowth_wf, Hg);
    revert H0; generalize lp0 end.
  induction (bots s) as [|bot bs IH]; intros lp H0; cbn; [exact H0|].
  apply IH, botIteration_wf, H0.
Qed.

Lemma addIfAbsent_wf g n : gridWf g -> gridWf (addIfAbsent g n).
Proof.
  intros Hg. unfold addIfAbsent. destruct (g !! coordKey n); [exact Hg|].
  apply map_Forall_insert_2; [apply createInitialHex_wf|exact Hg].
Qed.

Lemma spawnBots_wf i n sps g acc : gridWf g -> gridWf (spawnBots i n sps g acc).1.
Proof.
  revert i sps g acc. induction n as [|n IH]; intros i sps g acc Hg; [destruct sps; exact Hg|].
  destruct sps as [|sp sps]; [exact Hg|]. cbn [spawnBots]. apply IH.
  destruct (g !! getHexKey sp.1 sp.2); [exact Hg|].
  assert (H0 : gridWf (<[getHexKey sp.1 sp.2 := createInitialHex sp.1 sp.2 0]> g))
    by (apply map_Forall_insert_2; [apply createInitialHex_wf|exact Hg]).
  revert H0. generalize (<[getHexKey sp.1 sp.2 := createInitialHex sp.1 sp.2 0]> g).
  induction (getNeighbors sp.1 sp.2) as [|m ms IHm]; intros g' H0; cbn; [exact H0|].
  apply IHm, addIfAbsent_wf, H0.
Qed.

Lemma generateInitialGameData_wf w now : gridWf (grid (generateInitialGameData w now)).
Proof.
  unfold generateInitialGameData. cbv zeta.
  match goal with |- context [spawnBots ?i ?n ?sps ?g ?acc] =>
    assert (H : gridWf g);
    [|pose proof (spawnBots_wf i n sps g acc H) as H'; destruct (spawnBots i n sps g acc); exact H']
  end.
  assert (H0 : gridWf ({[getHexKey 0 0 := createInitialHex 0 0 0]} : Grid))
    by (apply map_Forall_singleton, createInitialHex_wf).
  revert H0. generalize ({[getHexKey 0 0 := createInitialHex 0 0 0]} : Grid).
  induction (getNeighbors 0 0) as [|m ms IHm]; intros g' H0; cbn; [exact H0|].
  apply IHm, map_Forall_insert_2; [apply createInitialHex_wf|exact H0].
Qed.

Lemma storeStep_wf a s : gridWf (grid s) -> gridWf (grid (storeStep a s)).
Proof.
  intros Hg. destruct a; cbn [storeStep].
  - exact Hg.
  - apply generateInitialGameData_wf.
  - apply generateInitialGameData_wf.
  - apply generateInitialGameData_wf.
  - unfold togglePlayerGrowth. repeat case_match; exact Hg.
  - unfold rechargeMove. repeat case_match; exact Hg.
  - exact Hg.
  - unfold confirmPendingAction. repeat case_match; exact Hg.
  - unfold movePlayer. repeat case_match; exact Hg.
  - unfold processMovementStep. repeat case_match; try exact Hg.
    apply exploreAround_wf, leaveHex_wf, Hg.
  - apply tick_wf, Hg.
Qed.

Lemma reachable_wf s : reachable s -> gridWf (grid s).
Proof.
  induction 1 as [t0|a s _ IH]; [apply generateInitialGameData_wf|apply storeStep_wf, IH].
Qed.

(** C5.  In every reachable state, every tile satisfies
    [0 <= currentLevel <= maxLevel], and every store action preserves the
    bounds on the whole grid.  A level-up sets [currentLevel] to
    [currentLevel + 1] and raises [maxLevel] to at least that; leaving a
    tile sets [currentLevel] to 0 and keeps [maxLevel]; a new tile starts
    at level 0 with [maxLevel] 0. *)
Theorem tile_levels_bounded :
  (forall s, reachable s ->
     forall k h, grid s !! k = Some h -> 0 <= currentLevel h <= maxLevel h) /\
  (forall a s, gridWf (grid s) -> gridWf (grid (storeStep a s))) /\
  (forall g e flag hex,
     g !! entKey e = Some hex -> finishedStep (processEntityGrowth g e flag) = true ->
     exists h', gr_grid (processEntityGrowth g e flag) !! entKey e = Some h' /\
       currentLevel h' = currentLevel hex + 1 /\ currentLevel hex + 1 <= maxLevel h' /\
       maxLevel hex <= maxLevel h') /\
  (forall g k h, g !! k = Some h ->
     exists h', leaveHex g k !! k = Some h' /\ currentLevel h' = 0 /\ maxLevel h' = maxLevel h) /\
  (forall q r, currentLevel (createInitialHex q r 0) = 0 /\ maxLevel (createInitialHex q r 0) = 0).
Proof.
  split; [intros s Hs k h Hk; exact (map_Forall_lookup_1 _ _ _ _ (reachable_wf s Hs) Hk)|].
  split; [exact storeStep_wf|].
  split; [|split; [|intros q r; split; reflexivity]].
  - intros g e flag hex Hh Hf. revert Hf. unfold processEntityGrowth.
    destruct (negb flag || _); [discriminate|].
    unfold entKey in Hh |- *. rewrite Hh.
    destruct (negb (canGrow _)); [discriminate|].
    destruct (getSecondsToGrow _ <=? _); cbn; [|discriminate]. intros _.
    eexists. rewrite lookup_insert_eq. split; [reflexivity|]. cbn.
    destruct (maxLevel hex <? currentLevel hex + 1) eqn:Er; cbn; [lia|].
    apply Z.ltb_ge in Er. lia.
  - intros g k h Hh. eexists. split; [apply leaveHex_here, Hh|]. split; reflexivity.
Qed.

Lemma tile_levels_bounded_witness :
  (0 <= currentLevel (createInitialHex 0 0 0) <= maxLevel (createInitialHex 0 0 0)) /\
  gridWf (grid (storeStep (Tick 2000) sampleTickState)) /\
  (exists h', gr_grid (processEntityGrowth sampleGrowGrid veteran true) !! entKey veteran = Some h' /\
     currentLevel h' = 2 /\ 2 <= maxLevel h' /\ 1 <= maxLevel h').
Proof.
  destruct tile_levels_bounded as (Hreach & Hstep & Hup & _).
  split; [|split].
  - apply (Hreach (storeStep (Tick 2000) (storeStep (StartNewGame (mkWin WEALTH 100 1) 0)
                                           (generateInitialGameData None 0)))
              ltac:(apply reachable_step, reachable_step, reachable_init)
              (0, 0) (createInitialHex 0 0 0)).
    vm_compute. reflexivity.
  - apply Hstep. refine (bool_decide_unpack _ _). vm_compute. reflexivity.
  - apply (Hup sampleGrowGrid veteran true (mkHex (0, 0) 0 0 1 1 9 true));
      vm_compute; reflexivity.
Defined.

(** ** The opponent's choice of a move *)

Lemma insertByScore_Forall (P : ScoredCandidate -> Prop) c l :
  P c -> Forall P l -> Forall P (insertByScore c l).
Proof.
  intros Hc. induction 1 as [|c' l Hc' Hl IH]; cbn; [repeat constructor; exact Hc|].
  destruct (Qle_bool (score c') (score c)); repeat constructor; assumption.
Qed.

Lemma insertByScore_sorted c l :
  StronglySorted (fun a b => (score b <= score a)%Q) l ->
  StronglySorted (fun a b => (score b <= score a)%Q) (insertByScore c l).
Proof.
  induction l as [|c' l IH]; cbn; intros Hs; [repeat constructor|].
  inversion Hs as [|? ? Hs' Hf]; subst.
  destruct (Qle_bool (score c') (score c)) eqn:E.
  - apply Qle_bool_iff in E. constructor; [exact Hs|]. constructor; [exact E|].
    eapply List.Forall_impl; [|exact Hf]. intros x Hx. apply (Qle_trans _ (score c')); [exact Hx|exact E].
  - assert (E' : (score c <= score c')%Q).
    { apply Qlt_le_weak, Qnot_le_lt. intros H. apply Qle_bool_iff in H. congruence. }
    constructor; [apply IH, Hs'|]. apply insertByScore_Forall; assumption.
Qed.

Lemma sortByScore_sorted l :
  StronglySorted (fun a b => (score b <= score a)%Q) (sortByScore l).
Proof.
  induction l as [|c l IH]; cbn; [constructor|]. apply insertByScore_sorted, IH.
Qed.

Lemma validateCandidates_path bot grid obstacles tr cands path :
  validateCandidates bot grid obstacles tr cands = Some path ->
  (forall c, hd_error path = Some c -> upgrade c = false) ->
  exists i cand, cands !! i = Some cand /\
    ~ (cq (sc_coord cand) = ent_q bot /\ cr (sc_coord cand) = ent_r bot) /\
    findPath (mkCoord (ent_q bot) (ent_r bot) false) (sc_coord cand) grid (playerLevel bot)
      obstacles = Some path /\
    pathCost grid path <= tr /\
    forall j c', (j < i)%nat -> cands !! j = Some c' ->
      candidateRejected bot grid obstacles tr c'.
Proof.
  intros Hv Hhd. revert Hv.
  induction cands as [|cand rest IH]; cbn; intros Hv; [discriminate|].
  assert (Hnext : validateCandidates bot grid obstacles tr rest = Some path ->
            candidateRejected bot grid obstacles tr cand ->
            exists i c, (cand :: rest) !! i = Some c /\
              ~ (cq (sc_coord c) = ent_q bot /\ cr (sc_coord c) = ent_r bot) /\
              findPath (mkCoord (ent_q bot) (ent_r bot) false) (sc_coord c) grid
                (playerLevel bot) obstacles = Some path /\
              pathCost grid path <= tr /\
              forall j c', (j < i)%nat -> (cand :: rest) !! j = Some c' ->
                candidateRejected bot grid obstacles tr c').
  { intros Hr Hrej. destruct (IH Hr) as (i & c & Hi & Hn & Hf & Hc & Hprev).
    exists (S i), c. split; [exact Hi|]. split; [exact Hn|]. split; [exact Hf|].
    split; [exact Hc|]. intros [|j] c' Hj Hc'; cbn in Hc'.
    - injection Hc' as <-. exact Hrej.
    - apply (Hprev j); [lia|exact Hc']. }
  destruct ((cq (sc_coord cand) =? ent_q bot) && (cr (sc_coord cand) =? ent_r bot)) eqn:Epos.
  - destruct (canGrow (growthCheckAt grid bot)) eqn:Eg.
    + injection Hv as <-. specialize (Hhd _ eq_refl). discriminate.
    + apply Hnext; [exact Hv|]. unfold candidateRejected. rewrite Epos. exact Eg.
  - destruct (findPath _ _ _ _ _) as [p|] eqn:Ef.
    + destruct (pathCost grid p <=? tr) eqn:Ec.
      * injection Hv as <-. exists 0%nat, cand. split; [reflexivity|]. split.
        { intros [H1 H2]. rewrite H1, H2, !Z.eqb_refl in Epos. discriminate. }
        split; [exact Ef|]. split; [apply Z.leb_le, Ec|]. intros j c' Hj; lia.
      * apply Hnext; [exact Hv|]. unfold candidateRejected. rewrite Epos, Ef.
        apply Z.leb_gt, Ec.
    + apply Hnext; [exact Hv|]. unfold candidateRejected. rewrite Epos, Ef. exact I.
Qed.

(** C8.  When [calculateBotMove] returns a movement path (its first step is
    not an in-place upgrade), the ranked candidates are in descending
    score order, and the path is the [findPath] result for the candidate
    at some index [i] below the role's check count.  That candidate is
    not the bot's own tile.  The path's real cost (the sum of the step
    costs) is at most [moves + coins / 2].  Every candidate before index
    [i] was passed over: own tile not growable, no path, or too costly. *)
Theorem calculateBotMove_first_affordable bot grid player winCondition obstacles path :
  calculateBotMove bot grid player winCondition obstacles = Some path ->
  (forall c, hd_error path = Some c -> upgrade c = false) ->
  StronglySorted (fun a b => (score b <= score a)%Q)
    (rankedCandidates bot grid player winCondition) /\
  exists i cand,
    (i < checkCountOf (determineRole bot player grid winCondition))%nat /\
    rankedCandidates bot grid player winCondition !! i = Some cand /\
    ~ (cq (sc_coord cand) = ent_q bot /\ cr (sc_coord cand) = ent_r bot) /\
    findPath (mkCoord (ent_q bot) (ent_r bot) false) (sc_coord cand) grid (playerLevel bot)
      obstacles = Some path /\
    pathCost grid path <= moves bot + coins bot / 2 /\
    forall j c', (j < i)%nat -> rankedCandidates bot grid player winCondition !! j = Some c' ->
      candidateRejected bot grid obstacles (totalResourcesOf bot) c'.
Proof.
  intros Hc Hhd. split; [apply sortByScore_sorted|].
  unfold calculateBotMove in Hc. cbv zeta in Hc.
  do 3 (match type of Hc with (if ?b then _ else _) = _ => destruct b end;
        [injection Hc as <-; specialize (Hhd _ eq_refl); discriminate|]).
  destruct (validateCandidates_path _ _ _ _ _ _ Hc Hhd) as (i & cand & Hi & Hn & Hf & Hcost & Hprev).
  apply lookup_take_Some in Hi as [Hi Hlt].
  exists i, cand. split; [exact Hlt|]. split; [exact Hi|]. split; [exact Hn|].
  split; [exact Hf|]. split; [exact Hcost|].
  intros j c' Hj Hc'. apply (Hprev j c' Hj). rewrite lookup_take_lt by lia. exact Hc'.
Qed.

Lemma calculateBotMove_first_affordable_witness :
  calculateBotMove richVeteran sampleRankRing initialPlayer None [] =
    Some [mkCoord 0 (-1) false] /\
  exists i cand,
    (i < checkCountOf (determineRole richVeteran initialPlayer sampleRankRing None))%nat /\
    rankedCandidates richVeteran sampleRankRing initialPlayer None !! i = Some cand /\
    findPath (mkCoord 0 0 false) (sc_coord cand) sampleRankRing 1 [] =
      Some [mkCoord 0 (-1) false] /\
    pathCost sampleRankRing [mkCoord 0 (-1) false] <= 10 + 10 / 2.
Proof.
  assert (E : calculateBotMove richVeteran sampleRankRing initialPlayer None [] =
                Some [mkCoord 0 (-1) false]) by (vm_compute; reflexivity).
  split; [exact E|].
  destruct (calculateBotMove_first_affordable richVeteran sampleRankRing initialPlayer None []
              [mkCoord 0 (-1) false] E) as [_ (i & cand & H1 & H2 & _ & H4 & H5 & _)];
    [intros c Hc; injection Hc as <-; reflexivity|].
  exists i, cand. split; [exact H1|]. split; [exact H2|]. split; [exact H4|]. exact H5.
Defined.

(** ** Hex geometry *)

Lemma abs_sum_even a b : exists k, Z.abs a + Z.abs (a + b) + Z.abs b = 2 * k.
Proof.
  destruct (Z.abs_spec a) as [[? ->]|[? ->]]; destruct (Z.abs_spec b) as [[? ->]|[? ->]];
  destruct (Z.abs_spec (a + b)) as [[? ->]|[? ->]];
  first [exists (a + b); lia | exists a; lia | exists b; lia | exists (- a); lia
        | exists (- b); lia | exists (- a - b); lia | exists 0; lia].
Qed.

(** The numerator of [cubeDistance] is even, so the division by 2 is exact. *)
Lemma cubeDistance_double a b :
  2 * cubeDistance a b =
  Z.abs (a.1 - b.1) + Z.abs (a.1 + a.2 - b.1 - b.2) + Z.abs (a.2 - b.2).
Proof.
  unfold cubeDistance.
  destruct (abs_sum_even (a.1 - b.1) (a.2 - b.2)) as [k Hk].
  replace (a.1 - b.1 + (a.2 - b.2)) with (a.1 + a.2 - b.1 - b.2) in Hk by lia.
  rewrite Hk, (Z.mul_comm 2 k), Z.div_mul by lia. lia.
Qed.

(** [getNeighbors q r] lists six distinct coordinates, and they are exactly
    the non-upgrade coordinates at cube distance 1 from [(q, r)]. *)
Theorem getNeighbors_adjacent q r :
  NoDup (getNeighbors q r) /\
  forall c, In c (getNeighbors q r) <->
            cubeDistance (q, r) (cq c, cr c) = 1 /\ upgrade c = false.
Proof.
  split.
  - unfold getNeighbors, directions. cbn.
    repeat (apply NoDup_cons_2;
            [intros H; apply list_elem_of_In in H; repeat destruct H as [H|H];
             try contradiction; injection H; lia|]).
    apply NoDup_nil_2.
  - intros [q' r' u]. pose proof (cubeDistance_double (q, r) (q', r')) as Hd. cbn in *.
    split.
    + unfold getNeighbors, directions. cbn. intros H.
      repeat destruct H as [H|H]; try contradiction; injection H as <- <- <-;
        (split; [lia|reflexivity]).
    + intros [H1 ->].
      assert (Hc : (q' = q + 1 /\ r' = r) \/ (q' = q + 1 /\ r' = r - 1) \/
                   (q' = q /\ r' = r - 1) \/ (q' = q - 1 /\ r' = r) \/
                   (q' = q - 1 /\ r' = r + 1) \/ (q' = q /\ r' = r + 1)) by lia.
      unfold getNeighbors, directions. cbn.
      repeat destruct Hc as [Hc|Hc]; destruct Hc as [-> ->];
        [left|right; left|do 2 right; left|do 3 right; left|do 4 right; left|do 5 right; left];
        f_equal; lia.
Qed.

(** [cubeDistance] is a metric on the hex grid: non-negative, zero exactly
    on equal coordinates, symmetric, and it satisfies the triangle
    inequality. *)
Theorem cubeDistance_metric a b c :
  0 <= cubeDistance a b /\
  (cubeDistance a b = 0 <-> a = b) /\
  cubeDistance a b = cubeDistance b a /\
  cubeDistance a c <= cubeDistance a b + cubeDistance b c.
Proof.
  destruct a as [a1 a2], b as [b1 b2], c as [c1 c2].
  pose proof (cubeDistance_double (a1, a2) (b1, b2)) as Hab.
  pose proof (cubeDistance_double (b1, b2) (a1, a2)) as Hba.
  pose proof (cubeDistance_double (a1, a2) (c1, c2)) as Hac.
  pose proof (cubeDistance_double (b1, b2) (c1, c2)) as Hbc.
  cbn in *. split; [lia|]. split; [|split; lia].
  split; [intros H; f_equal; lia|intros H; injection H as -> ->; lia].
Qed.

(** ** Exploration *)

Lemma exploreAround_fold g c :
  exploreAround g c = fold_left exploreOne (getNeighbors (cq c) (cr c) ++ [c]) g.
Proof. reflexivity. Qed.

Lemma exploreOne_keeps l g k h :
  g !! k = Some h -> fold_left exploreOne l g !! k = Some h.
Proof.
  revert g. induction l as [|n l IH]; intros g Hk; cbn; [exact Hk|].
  apply IH. unfold exploreOne. destruct (g !! coordKey n) eqn:E; [exact Hk|].
  rewrite lookup_insert_ne; [exact Hk|congruence].
Qed.

Lemma exploreOne_covers l g n : In n l -> is_Some (fold_left exploreOne l g !! coordKey n).
Proof.
  revert g. induction l as [|m l IH]; intros g Hn; [destruct Hn|].
  destruct Hn as [->|Hn]; cbn; [|exact (IH _ Hn)].
  unfold exploreOne at 2. destruct (g !! coordKey n) as [h0|] eqn:E.
  - exists h0. apply exploreOne_keeps, E.
  - eexists. apply exploreOne_keeps, lookup_insert_eq.
Qed.

Lemma exploreOne_fresh l g k h :
  g !! k = None -> fold_left exploreOne l g !! k = Some h -> h = createInitialHex k.1 k.2 0.
Proof.
  revert g. induction l as [|n l IH]; intros g Hk Hf; cbn in Hf; [congruence|].
  unfold exploreOne at 2 in Hf. destruct (g !! coordKey n) as [h0|] eqn:E; [exact (IH g Hk Hf)|].
  destruct (decide (k = coordKey n)) as [->|Hne].
  - rewrite (exploreOne_keeps _ _ _ _ (lookup_insert_eq _ _ _)) in Hf.
    injection Hf as <-. reflexivity.
  - apply (IH _ (eq_trans (lookup_insert_ne _ _ _ _ (not_eq_sym Hne)) Hk) Hf).
Qed.

Lemma leaveHex_none g k k' : g !! k' = None -> leaveHex g k !! k' = None.
Proof.
  intros Hk. unfold leaveHex. destruct (g !! k) eqn:E; [|exact Hk].
  rewrite lookup_insert_ne; [exact Hk|congruence].
Qed.

Lemma exploreAround_leave_spec g oldKey c :
  (forall n, In n (c :: getNeighbors (cq c) (cr c)) ->
     is_Some (exploreAround (leaveHex g oldKey) c !! coordKey n)) /\
  (forall k h, g !! k = None -> exploreAround (leaveHex g oldKey) c !! k = Some h ->
     h = createInitialHex k.1 k.2 0) /\
  (forall k h, k <> oldKey -> g !! k = Some h ->
     exploreAround (leaveHex g oldKey) c !! k = Some h).
Proof.
  rewrite exploreAround_fold. split; [|split].
  - intros n Hn. apply exploreOne_covers. apply in_or_app.
    destruct Hn as [<-|Hn]; [right; left; reflexivity|left; exact Hn].
  - intros k h Hk. apply exploreOne_fresh, leaveHex_none, Hk.
  - intros k h Hne Hk. apply exploreOne_keeps. rewrite leaveHex_other; assumption.
Qed.

(** The exploration of a committed step of the player ([processMovementStep]):
    when the next step of the queue is free of bots, the player stands on it
    with the rest of the queue, the step and its six neighbours are all on
    the grid, every tile that was not on the grid before is a fresh level-0
    tile of its own coordinates, and every other tile than the one left
    behind is unchanged. *)
Theorem processMovementStep_explores state nextStep rest :
  movementQueue (player state) = nextStep :: rest ->
  Forall (fun b => ~ (ent_q b = cq nextStep /\ ent_r b = cr nextStep)) (bots state) ->
  let s' := processMovementStep state in
  ent_q (player s') = cq nextStep /\ ent_r (player s') = cr nextStep /\
  movementQueue (player s') = rest /\
  (forall n, In n (nextStep :: getNeighbors (cq nextStep) (cr nextStep)) ->
     is_Some (grid s' !! coordKey n)) /\
  (forall k h, grid state !! k = None -> grid s' !! k = Some h ->
     h = createInitialHex k.1 k.2 0) /\
  (forall k h, k <> getHexKey (ent_q (player state)) (ent_r (player state)) ->
     grid state !! k = Some h -> grid s' !! k = Some h).
Proof.
  intros Hq Hfree. cbn zeta. unfold processMovementStep. rewrite Hq, find_collision_none by exact Hfree.
  cbn. split; [reflexivity|split; [reflexivity|split; [reflexivity|]]].
  apply exploreAround_leave_spec.
Qed.

Lemma processMovementStep_explores_witness :
  movementQueue (player sampleWalkState) = eastOfOrigin :: [] /\
  Forall (fun b => ~ (ent_q b = cq eastOfOrigin /\ ent_r b = cr eastOfOrigin)) (bots sampleWalkState) /\
  (let s' := processMovementStep sampleWalkState in
  ent_q (player s') = cq eastOfOrigin /\ ent_r (player s') = cr eastOfOrigin /\
  movementQueue (player s') = [] /\
  (forall n, In n (eastOfOrigin :: getNeighbors (cq eastOfOrigin) (cr eastOfOrigin)) ->
     is_Some (grid s' !! coordKey n)) /\
  (forall k h, grid sampleWalkState !! k = None -> grid s' !! k = Some h ->
     h = createInitialHex k.1 k.2 0) /\
  (forall k h, k <> getHexKey (ent_q (player sampleWalkState)) (ent_r (player sampleWalkState)) ->
     grid sampleWalkState !! k = Some h -> grid s' !! k = Some h)).
Proof.
  split; [reflexivity|split; [constructor|]].
  apply (processMovementStep_explores sampleWalkState eastOfOrigin []); [reflexivity|constructor].
Defined.

(** A bot's step in [tick] ([botMoveStep]), when its target is free: if the
    bot cannot pay the step's cost (two coins standing for a missing move) the
    grid is untouched and only its queue is cleared; otherwise the bot stands
    on the target with the rest of its queue, its moves and coins stay
    non-negative and drop by exactly the cost counted in move equivalents,
    the target and its six neighbours are on the grid, every new tile is a
    fresh level-0 tile of its own coordinates, and every tile other than the
    one left behind is unchanged. *)
Theorem botMoveStep_pays newGrid occupied oldKey b nextStep rest :
  coordKey nextStep ∉ occupied -> 0 <= coins b ->
  let cost := stepCost (newGrid !! coordKey nextStep) in
  let res := botMoveStep newGrid occupied oldKey b nextStep rest in
  (2 * moves b + coins b < 2 * cost -> res = (newGrid, setQueue b [])) /\
  (2 * cost <= 2 * moves b + coins b ->
     ent_q res.2 = cq nextStep /\ ent_r res.2 = cr nextStep /\ movementQueue res.2 = rest /\
     0 <= moves res.2 /\ 0 <= coins res.2 /\
     2 * moves res.2 + coins res.2 = 2 * moves b + coins b - 2 * cost /\
     (forall n, In n (nextStep :: getNeighbors (cq nextStep) (cr nextStep)) ->
        is_Some (res.1 !! coordKey n)) /\
     (forall k h, newGrid !! k = None -> res.1 !! k = Some h ->
        h = createInitialHex k.1 k.2 0) /\
     (forall k h, k <> oldKey -> newGrid !! k = Some h -> res.1 !! k = Some h)).
Proof.
  intros Hfree Hc. cbn zeta. unfold botMoveStep. rewrite bool_decide_false by exact Hfree.
  unfold payStep, EXCHANGE_RATE_COINS_PER_MOVE. cbn [moves coins setQueue].
  set (cost := stepCost (newGrid !! coordKey nextStep)).
  destruct (Z.leb_spec cost (moves b)) as [Hm|Hm];
    [|destruct (Z.leb_spec ((cost - moves b) * 2) (coins b)) as [Hk|Hk]]; split; intros Hb.
  - lia.
  - cbn. repeat (split; [first [reflexivity|lia]|]).
    destruct nextStep as [nq nr nu]. cbn.
    destruct (exploreAround_leave_spec newGrid oldKey (mkCoord nq nr false)) as (H1 & H2 & H3).
    split; [|split; assumption].
    intros n [<-|Hn]; [exact (H1 (mkCoord nq nr false) (or_introl eq_refl))|exact (H1 n (or_intror Hn))].
  - lia.
  - cbn. repeat (split; [first [reflexivity|lia]|]).
    destruct nextStep as [nq nr nu]. cbn.
    destruct (exploreAround_leave_spec newGrid oldKey (mkCoord nq nr false)) as (H1 & H2 & H3).
    split; [|split; assumption].
    intros n [<-|Hn]; [exact (H1 (mkCoord nq nr false) (or_introl eq_refl))|exact (H1 n (or_intror Hn))].
  - reflexivity.
  - lia.
Qed.

Lemma botMoveStep_pays_witness :
  (coordKey eastOfOrigin ∉ (∅ : gset key)) /\ 0 <= coins walkerBot /\
  (let cost := stepCost (sampleGrowGrid !! coordKey eastOfOrigin) in
  let res := botMoveStep sampleGrowGrid ∅ (entKey walkerBot) walkerBot eastOfOrigin [] in
  (2 * moves walkerBot + coins walkerBot < 2 * cost -> res = (sampleGrowGrid, setQueue walkerBot [])) /\
  (2 * cost <= 2 * moves walkerBot + coins walkerBot ->
     ent_q res.2 = cq eastOfOrigin /\ ent_r res.2 = cr eastOfOrigin /\ movementQueue res.2 = [] /\
     0 <= moves res.2 /\ 0 <= coins res.2 /\
     2 * moves res.2 + coins res.2 = 2 * moves walkerBot + coins walkerBot - 2 * cost /\
     (forall n, In n (eastOfOrigin :: getNeighbors (cq eastOfOrigin) (cr eastOfOrigin)) ->
        is_Some (res.1 !! coordKey n)) /\
     (forall k h, sampleGrowGrid !! k = None -> res.1 !! k = Some h ->
        h = createInitialHex k.1 k.2 0) /\
     (forall k h, k <> entKey walkerBot -> sampleGrowGrid !! k = Some h -> res.1 !! k = Some h))).
Proof.
  split; [apply not_elem_of_empty|split; [vm_compute; discriminate|]].
  apply botMoveStep_pays; [apply not_elem_of_empty|vm_compute; discriminate].
Defined.

(** ** The older bot move *)

Lemma legacy_insert_nonempty m l : Legacy.insertByScore m l <> [].
Proof. destruct l as [|m' l]; cbn; [discriminate|]. destruct (_ <=? _); discriminate. Qed.

Lemma legacy_sort_head (f : HexCoord -> Z) l m rest :
  Legacy.sortByScore (map (fun c => Legacy.mkScored c (f c)) l) = m :: rest ->
  Legacy.score m = f (Legacy.coord m) /\
  exists pre post, l = pre ++ Legacy.coord m :: post /\
    Forall (fun x => f x < Legacy.score m) pre /\ Forall (fun x => f x <= Legacy.score m) post.
Proof.
  revert m rest. induction l as [|a l IH]; intros m rest Hs; cbn in Hs; [discriminate|].
  destruct (Legacy.sortByScore (map (fun c => Legacy.mkScored c (f c)) l)) as [|h r] eqn:E.
  - destruct l as [|b l]; [|cbn in E; exfalso; exact (legacy_insert_nonempty _ _ E)].
    cbn in Hs. injection Hs as <- <-. split; [reflexivity|]. exists [], []. cbn. auto.
  - destruct (IH h r eq_refl) as (Hh & pre & post & -> & Hpre & Hpost).
    cbn in Hs. destruct (Z.leb_spec (Legacy.score h) (f a)) as [Hle|Hlt].
    + injection Hs as <- <-. split; [reflexivity|]. exists [], (pre ++ Legacy.coord h :: post).
      cbn. split; [reflexivity|split; [constructor|]].
      apply Forall_app; split; [|constructor; [lia|]].
      * apply (List.Forall_impl _ (fun x Hx => Z.lt_le_incl _ _ (Z.lt_le_trans _ _ _ Hx Hle)) Hpre).
      * apply (List.Forall_impl _ (fun x Hx => Z.le_trans _ _ _ Hx Hle) Hpost).
    + injection Hs as <- <-. split; [exact Hh|]. exists (a :: pre), post.
      split; [reflexivity|split; [constructor; [exact Hlt|exact Hpre]|exact Hpost]].
Qed.

Lemma legacy_sort_nil l : Legacy.sortByScore l = [] -> l = [].
Proof. destruct l as [|m l]; cbn; [reflexivity|]. intros H. exfalso. exact (legacy_insert_nonempty _ _ H). Qed.

Lemma legacy_filter_nil {A} (p : A -> bool) l : List.filter p l = [] <-> Forall (fun x => p x = false) l.
Proof.
  induction l as [|a l IH]; cbn; [split; [constructor|reflexivity]|].
  destruct (p a) eqn:E; split; intros H.
  - discriminate.
  - inversion H; congruence.
  - constructor; [exact E|apply IH, H].
  - inversion H; apply IH; assumption.
Qed.

(** The older [calculateBotMove] returns [null] exactly when every
    neighbouring coordinate of the bot is the opponent's or a rank-locked
    tile; otherwise it returns a neighbour that is neither. *)
Theorem legacy_calculateBotMove_valid bot grid opponent :
  (Legacy.calculateBotMove bot grid opponent = None <->
   Forall (fun n => (cq n = cq opponent /\ cr n = cr opponent) \/
                    rankLocked (grid !! coordKey n) (playerLevel bot) = true)
     (getNeighbors (ent_q bot) (ent_r bot))) /\
  (forall c, Legacy.calculateBotMove bot grid opponent = Some c ->
   In c (getNeighbors (ent_q bot) (ent_r bot)) /\ ~ (cq c = cq opponent /\ cr c = cr opponent) /\
   rankLocked (grid !! coordKey c) (playerLevel bot) = false).
Proof.
  assert (Hv : forall n, Legacy.isValidNeighbor bot grid opponent n = false <->
            (cq n = cq opponent /\ cr n = cr opponent) \/
            rankLocked (grid !! coordKey n) (playerLevel bot) = true).
  { intros n. unfold Legacy.isValidNeighbor, coordKey.
    destruct (Z.eqb_spec (cq n) (cq opponent)); destruct (Z.eqb_spec (cr n) (cr opponent)); cbn;
      destruct (rankLocked _ _); cbn; intuition congruence. }
  unfold Legacy.calculateBotMove. split.
  - destruct (Legacy.sortByScore _) as [|m rest] eqn:E.
    + apply legacy_sort_nil, map_eq_nil, legacy_filter_nil in E.
      split; [intros _|reflexivity]. apply (List.Forall_impl _ (fun n Hn => proj1 (Hv n) Hn) E).
    + split; [discriminate|intros Hall].
      assert (Hnil : List.filter (Legacy.isValidNeighbor bot grid opponent) (getNeighbors (ent_q bot) (ent_r bot)) = []).
      { apply legacy_filter_nil, (List.Forall_impl _ (fun n Hn => proj2 (Hv n) Hn) Hall). }
      rewrite Hnil in E. discriminate.
  - intros c. destruct (Legacy.sortByScore _) as [|m rest] eqn:E; [discriminate|].
    intros Hc. injection Hc as <-.
    destruct (legacy_sort_head _ _ _ _ E) as (_ & pre & post & Hl & _).
    assert (Hin : In (Legacy.coord m) (List.filter (Legacy.isValidNeighbor bot grid opponent)
                    (getNeighbors (ent_q bot) (ent_r bot)))).
    { rewrite Hl. apply in_or_app. right. left. reflexivity. }
    apply List.filter_In in Hin. destruct Hin as [Hin Hval].
    split; [exact Hin|].
    destruct (rankLocked (grid !! coordKey (Legacy.coord m)) (playerLevel bot)) eqn:Hr.
    + exfalso. assert (Hf := proj2 (Hv (Legacy.coord m)) (or_intror Hr)). congruence.
    + split; [|reflexivity]. intros Ho. assert (Hf := proj2 (Hv (Legacy.coord m)) (or_introl Ho)). congruence.
Qed.

Lemma legacy_calculateBotMove_cases bot grid opponent :
  let valid := List.filter (Legacy.isValidNeighbor bot grid opponent)
                 (getNeighbors (ent_q bot) (ent_r bot)) in
  match Legacy.calculateBotMove bot grid opponent with
  | None => valid = []
  | Some c => exists pre post, valid = pre ++ c :: post /\
      Forall (fun n => Legacy.scoreMove grid n < Legacy.scoreMove grid c) pre /\
      Forall (fun n => Legacy.scoreMove grid n <= Legacy.scoreMove grid c) post
  end.
Proof.
  cbn zeta. unfold Legacy.calculateBotMove. destruct (Legacy.sortByScore _) as [|m rest] eqn:E.
  - apply legacy_sort_nil, map_eq_nil in E. exact E.
  - destruct (legacy_sort_head _ _ _ _ E) as (Hs & pre & post & Hl & Hpre & Hpost).
    rewrite Hs in Hpre, Hpost. exists pre, post. auto.
Qed.

(** The move returned by the older [calculateBotMove] has the highest score
    among the valid neighbours, and among the neighbours of that score it is
    the first in the order of [getNeighbors] (the sort is stable): the valid
    neighbours before it score strictly less, those after it at most as much. *)
Theorem legacy_calculateBotMove_best bot grid opponent c :
  Legacy.calculateBotMove bot grid opponent = Some c ->
  exists pre post,
    List.filter (Legacy.isValidNeighbor bot grid opponent) (getNeighbors (ent_q bot) (ent_r bot))
      = pre ++ c :: post /\
    Forall (fun n => Legacy.scoreMove grid n < Legacy.scoreMove grid c) pre /\
    Forall (fun n => Legacy.scoreMove grid n <= Legacy.scoreMove grid c) post.
Proof.
  intros E. pose proof (legacy_calculateBotMove_cases bot grid opponent) as H.
  cbn zeta in H. rewrite E in H. exact H.
Qed.

Lemma legacy_calculateBotMove_best_witness :
  Legacy.calculateBotMove veteran sampleGrowGrid eastOfOrigin = Some (mkCoord 1 (-1) false) /\
  exists pre post,
    List.filter (Legacy.isValidNeighbor veteran sampleGrowGrid eastOfOrigin)
      (getNeighbors (ent_q veteran) (ent_r veteran)) = pre ++ mkCoord 1 (-1) false :: post /\
    Forall (fun n => Legacy.scoreMove sampleGrowGrid n < Legacy.scoreMove sampleGrowGrid (mkCoord 1 (-1) false)) pre /\
    Forall (fun n => Legacy.scoreMove sampleGrowGrid n <= Legacy.scoreMove sampleGrowGrid (mkCoord 1 (-1) false)) post.
Proof.
  split; [vm_compute; reflexivity|].
  apply legacy_calculateBotMove_best. vm_compute. reflexivity.
Defined.

Lemma legacy_getDistanceToCenter_double q r :
  2 * Legacy.getDistanceToCenter q r = Z.abs q + Z.abs r + Z.abs (q + r).
Proof.
  unfold Legacy.getDistanceToCenter. destruct (abs_sum_even q r) as [k Hk].
  replace (Z.abs q + Z.abs r + Z.abs (q + r)) with (k * 2) by lia.
  rewrite Z.div_mul by lia. lia.
Qed.

Lemma getNeighbors_offset q r n :
  In n (getNeighbors q r) ->
  exists a b, cq n = q + a /\ cr n = r + b /\ -1 <= a <= 1 /\ -1 <= b <= 1.
Proof.
  intros Hn. unfold getNeighbors in Hn. apply in_map_iff in Hn. destruct Hn as [d [<- Hd]].
  exists d.1, d.2. cbn. split; [reflexivity|split; [reflexivity|]].
  repeat destruct Hd as [<-|Hd]; cbn; [lia..|destruct Hd].
Qed.

(** The older [calculateBotMove] always prefers a new tile: when some valid
    neighbour of the bot is unexplored or has [maxLevel] 0, it returns a move,
    and that move is such a tile too (the bonus of 100 outweighs any
    difference in distance to the centre between two neighbours). *)
Theorem legacy_calculateBotMove_prefers_new bot grid opponent n :
  In n (getNeighbors (ent_q bot) (ent_r bot)) ->
  Legacy.isValidNeighbor bot grid opponent n = true ->
  match grid !! coordKey n with None => True | Some h => maxLevel h = 0 end ->
  exists c, Legacy.calculateBotMove bot grid opponent = Some c /\
    match grid !! coordKey c with None => True | Some h => maxLevel h = 0 end.
Proof.
  intros Hn Hv Hnew.
  assert (Hinf : In n (List.filter (Legacy.isValidNeighbor bot grid opponent)
                         (getNeighbors (ent_q bot) (ent_r bot)))) by (apply List.filter_In; auto).
  pose proof (legacy_calculateBotMove_cases bot grid opponent) as Hcases. cbn zeta in Hcases.
  destruct (Legacy.calculateBotMove bot grid opponent) as [c|]; [|rewrite Hcases in Hinf; destruct Hinf].
  exists c. split; [reflexivity|].
  destruct Hcases as (pre & post & Hl & Hpre & Hpost).
  assert (Hge : Legacy.scoreMove grid n <= Legacy.scoreMove grid c).
  { rewrite Hl in Hinf. apply in_app_or in Hinf. destruct Hinf as [Hin|[->|Hin]].
    - rewrite List.Forall_forall in Hpre. apply Z.lt_le_incl, Hpre, Hin.
    - lia.
    - rewrite List.Forall_forall in Hpost. apply Hpost, Hin. }
  assert (Hc : In c (getNeighbors (ent_q bot) (ent_r bot))).
  { assert (Hc : In c (List.filter (Legacy.isValidNeighbor bot grid opponent)
                        (getNeighbors (ent_q bot) (ent_r bot)))).
    { rewrite Hl. apply in_or_app. right. left. reflexivity. }
    apply List.filter_In in Hc. tauto. }
  destruct (getNeighbors_offset _ _ _ Hn) as (a1 & b1 & Hq1 & Hr1 & Ha1 & Hb1).
  destruct (getNeighbors_offset _ _ _ Hc) as (a2 & b2 & Hq2 & Hr2 & Ha2 & Hb2).
  unfold Legacy.scoreMove in Hge. unfold coordKey in Hnew |- *.
  pose proof (legacy_getDistanceToCenter_double (cq n) (cr n)) as Dn.
  pose proof (legacy_getDistanceToCenter_double (cq c) (cr c)) as Dc.
  destruct (grid !! getHexKey (cq c) (cr c)) as [hc|]; [|exact I].
  destruct (Z.eqb_spec (maxLevel hc) 0) as [Hz|Hz]; [exact Hz|exfalso].
  destruct (grid !! getHexKey (cq n) (cr n)) as [hn|];
    [rewrite (proj2 (Z.eqb_eq _ _) Hnew) in Hge|]; cbn in Hge; lia.
Qed.

Lemma legacy_calculateBotMove_prefers_new_witness :
  In (mkCoord 0 1 false) (getNeighbors (ent_q veteran) (ent_r veteran)) /\
  Legacy.isValidNeighbor veteran sampleGrowGrid eastOfOrigin (mkCoord 0 1 false) = true /\
  match sampleGrowGrid !! coordKey (mkCoord 0 1 false) with None => True | Some h => maxLevel h = 0 end /\
  exists c, Legacy.calculateBotMove veteran sampleGrowGrid eastOfOrigin = Some c /\
    match sampleGrowGrid !! coordKey c with None => True | Some h => maxLevel h = 0 end.
Proof.
  assert (Hn : In (mkCoord 0 1 false) (getNeighbors (ent_q veteran) (ent_r veteran)))
    by (cbn; tauto).
  split; [exact Hn|split; [vm_compute; reflexivity|split; [vm_compute; exact I|]]].
  apply (legacy_calculateBotMove_prefers_new veteran sampleGrowGrid eastOfOrigin (mkCoord 0 1 false) Hn);
    vm_compute; [reflexivity|exact I].
Defined.

(** ** The leaderboard *)

Lemma lb_insert_perm e l : Permutation (Leaderboard.insertByMaxCoins e l) (e :: l).
Proof.
  induction l as [|e' l IH]; cbn; [reflexivity|].
  destruct (_ <=? _); [reflexivity|].
  etransitivity; [apply perm_skip, IH|apply perm_swap].
Qed.

Lemma lb_sort_perm l : Permutation (Leaderboard.sortByMaxCoins l) l.
Proof.
  induction l as [|e l IH]; cbn; [reflexivity|].
  etransitivity; [apply lb_insert_perm|apply perm_skip, IH].
Qed.

Lemma lb_insert_sorted e l :
  StronglySorted (fun a b => Leaderboard.maxCoins b <= Leaderboard.maxCoins a) l ->
  StronglySorted (fun a b => Leaderboard.maxCoins b <= Leaderboard.maxCoins a)
    (Leaderboard.insertByMaxCoins e l).
Proof.
  induction 1 as [|e' l Hs IH Hall]; cbn; [repeat constructor|].
  destruct (Z.leb_spec (Leaderboard.maxCoins e') (Leaderboard.maxCoins e)) as [Hle|Hlt].
  - constructor; [constructor; assumption|].
    constructor; [exact Hle|].
    apply (List.Forall_impl _ (fun x Hx => Z.le_trans _ _ _ Hx Hle) Hall).
  - constructor; [exact IH|].
    apply (Permutation_Forall (Permutation_sym (lb_insert_perm e l))).
    constructor; [lia|exact Hall].
Qed.

Lemma lb_findIndex_Some {A} (p : A -> bool) l i :
  Leaderboard.findIndex p l = Some i -> exists x, l !! i = Some x /\ p x = true.
Proof.
  revert i. induction l as [|x l IH]; intros i; cbn; [discriminate|].
  destruct (p x) eqn:E.
  - intros [= <-]. exists x. auto.
  - destruct (Leaderboard.findIndex p l) as [j|] eqn:Ej; cbn; [|discriminate].
    intros [= <-]. exact (IH j eq_refl).
Qed.

Lemma lb_findIndex_None {A} (p : A -> bool) l :
  Leaderboard.findIndex p l = None -> Forall (fun x => p x = false) l.
Proof.
  induction l as [|x l IH]; cbn; [constructor|].
  destruct (p x) eqn:E; [discriminate|].
  destruct (Leaderboard.findIndex p l); cbn; [discriminate|]. intros _. constructor; auto.
Qed.

Lemma lb_sort_sorted l :
  StronglySorted (fun a b => Leaderboard.maxCoins b <= Leaderboard.maxCoins a)
    (Leaderboard.sortByMaxCoins l).
Proof. induction l as [|e l IH]; cbn; [constructor|]. apply lb_insert_sorted, IH. Qed.

(** The leaderboard after [updateLeaderboard] is always sorted by
    decreasing [maxCoins]. *)
Theorem updateLeaderboard_sorted now nick color icon coins level board :
  StronglySorted (fun a b => Leaderboard.maxCoins b <= Leaderboard.maxCoins a)
    (Leaderboard.updateLeaderboard now nick color icon coins level board).
Proof. apply lb_sort_sorted. Qed.

Lemma lb_update_cases now nick color icon coins level board :
  exists board1,
    Permutation (Leaderboard.updateLeaderboard now nick color icon coins level board) board1 /\
    ((board1 = board ++ [Leaderboard.mkLbEntry nick color icon coins level now] /\
      Forall (fun e => Leaderboard.nickname e <> nick) board) \/
     (exists i entry, board !! i = Some entry /\ Leaderboard.nickname entry = nick /\
        ((board1 = board /\ coins < Leaderboard.maxCoins entry /\ level < Leaderboard.maxLevel entry) \/
         board1 = <[i := Leaderboard.mkLbEntry (Leaderboard.nickname entry) color icon
                      (Z.max (Leaderboard.maxCoins entry) coins)
                      (Z.max (Leaderboard.maxLevel entry) level) now]> board))).
Proof.
  unfold Leaderboard.updateLeaderboard.
  destruct (Leaderboard.findIndex _ board) as [i|] eqn:Ei.
  - destruct (lb_findIndex_Some _ _ _ Ei) as (entry & Hi & Hn). rewrite Hi.
    apply String.eqb_eq in Hn.
    eexists. split; [apply lb_sort_perm|]. right. exists i, entry.
    split; [exact Hi|split; [exact Hn|]].
    destruct (Z.leb_spec (Leaderboard.maxCoins entry) coins);
      destruct (Z.leb_spec (Leaderboard.maxLevel entry) level); cbn; [right; reflexivity..|].
    left. auto.
  - eexists. split; [apply lb_sort_perm|]. left. split; [reflexivity|].
    apply (List.Forall_impl _ (fun e He Hn => proj2 (not_true_iff_false _) He (proj2 (String.eqb_eq _ _) Hn))
             (lb_findIndex_None _ _ Ei)).
Qed.

(** [updateLeaderboard] records the score and never lowers a record: the
    board afterwards has an entry for the nickname whose [maxCoins] and
    [maxLevel] are at least the given coins and level, and every entry of
    the board before has an entry of the same nickname afterwards with
    [maxCoins] and [maxLevel] at least as high. *)
Theorem updateLeaderboard_records now nick color icon coins level board :
  let board' := Leaderboard.updateLeaderboard now nick color icon coins level board in
  (exists e, In e board' /\ Leaderboard.nickname e = nick /\
     coins <= Leaderboard.maxCoins e /\ level <= Leaderboard.maxLevel e) /\
  (forall e, In e board -> exists e', In e' board' /\
     Leaderboard.nickname e' = Leaderboard.nickname e /\
     Leaderboard.maxCoins e <= Leaderboard.maxCoins e' /\
     Leaderboard.maxLevel e <= Leaderboard.maxLevel e').
Proof.
  cbn zeta. destruct (lb_update_cases now nick color icon coins level board) as (board1 & Hp & Hc).
  assert (Hin : forall e, In e board1 -> In e (Leaderboard.updateLeaderboard now nick color icon coins level board))
    by (intros e He; apply (Permutation_in _ (Permutation_sym Hp) He)).
  destruct Hc as [[-> _]|(i & entry & Hi & Hn & [(-> & Hc & Hl)| ->])].
  - split.
    + eexists. split; [apply Hin, in_or_app; right; left; reflexivity|]. cbn; repeat split; first [reflexivity|assumption|lia].
    + intros e He. exists e. split; [apply Hin, in_or_app; left; exact He|]; repeat split; first [reflexivity|assumption|lia].
  - split.
    + exists entry. split; [apply Hin, list_elem_of_In, list_elem_of_lookup_2 with i, Hi|]; repeat split; first [reflexivity|assumption|lia].
    + intros e He. exists e. split; [apply Hin, He|]; repeat split; first [reflexivity|assumption|lia].
  - assert (Hlt : (i < length board)%nat) by (apply lookup_lt_Some with entry, Hi).
    split.
    + eexists. split; [apply Hin, list_elem_of_In, list_elem_of_lookup_2 with i, list_lookup_insert_eq, Hlt|].
      cbn; repeat split; first [reflexivity|assumption|lia].
    + intros e He. apply list_elem_of_In, list_elem_of_lookup in He. destruct He as [j Hj].
      destruct (decide (i = j)) as [<-|Hne].
      * rewrite Hi in Hj. injection Hj as <-.
        eexists. split; [apply Hin, list_elem_of_In, list_elem_of_lookup_2 with i, list_lookup_insert_eq, Hlt|].
        cbn; repeat split; first [reflexivity|assumption|lia].
      * exists e. split; [|repeat split; first [reflexivity|assumption|lia]]. apply Hin, list_elem_of_In, list_elem_of_lookup_2 with j.
        rewrite list_lookup_insert_ne by exact Hne. exact Hj.
Qed.

Lemma lb_map_insert {A B} (f : A -> B) (l : list A) i x y :
  l !! i = Some y -> f x = f y -> map f (<[i := x]> l) = map f l.
Proof.
  revert i. induction l as [|a l IH]; intros [|i] Hi Hf; cbn in *; try discriminate.
  - injection Hi as ->. rewrite Hf. reflexivity.
  - f_equal. apply IH; assumption.
Qed.

(** [updateLeaderboard] adds the nickname to the board and no other: the
    nicknames afterwards are those before plus the given one, and a board
    without repeated nicknames (such as the initial [MOCK_LEADERBOARD])
    stays without repeated nicknames, since an existing entry is updated in
    place rather than added again. *)
Theorem updateLeaderboard_names now nick color icon coins level board :
  List.NoDup (map Leaderboard.nickname board) ->
  let board' := Leaderboard.updateLeaderboard now nick color icon coins level board in
  List.NoDup (map Leaderboard.nickname board') /\
  (forall n, In n (map Leaderboard.nickname board') <-> n = nick \/ In n (map Leaderboard.nickname board)).
Proof.
  intros Hnd. cbn zeta.
  destruct (lb_update_cases now nick color icon coins level board) as (board1 & Hp & Hc).
  apply (Permutation_map Leaderboard.nickname) in Hp.
  enough (H : List.NoDup (map Leaderboard.nickname board1) /\
    (forall n, In n (map Leaderboard.nickname board1) <-> n = nick \/ In n (map Leaderboard.nickname board))).
  { destruct H as [H1 H2]. split; [exact (Permutation_NoDup (Permutation_sym Hp) H1)|].
    intros n. rewrite <- H2. split; intros Hn;
      [exact (Permutation_in _ Hp Hn)|exact (Permutation_in _ (Permutation_sym Hp) Hn)]. }
  destruct Hc as [[-> Hfree]|(i & entry & Hi & Hn & [(-> & _ & _)| ->])].
  - rewrite map_app. cbn. split.
    + apply (Permutation_NoDup (Permutation_cons_append _ _)). constructor; [|exact Hnd].
      intros Hin. apply in_map_iff in Hin. destruct Hin as (e & He & Hin).
      rewrite List.Forall_forall in Hfree. exact (Hfree e Hin He).
    + intros n. rewrite in_app_iff. cbn. intuition congruence.
  - split; [exact Hnd|]. intros n. split; [tauto|].
    intros [->|Hin]; [|exact Hin].
    rewrite <- Hn. apply in_map, list_elem_of_In, list_elem_of_lookup_2 with i, Hi.
  - erewrite (lb_map_insert _ _ _ _ entry Hi) by reflexivity. split; [exact Hnd|].
    intros n. split; [tauto|]. intros [->|Hin]; [|exact Hin].
    rewrite <- Hn. apply in_map, list_elem_of_In, list_elem_of_lookup_2 with i, Hi.
Qed.

Lemma updateLeaderboard_names_witness :
  List.NoDup (map Leaderboard.nickname (Leaderboard.MOCK_LEADERBOARD 0)) /\
  (let board' := Leaderboard.updateLeaderboard 1 "Vanguard" "#fff" "star" 3000 2
                   (Leaderboard.MOCK_LEADERBOARD 0) in
   List.NoDup (map Leaderboard.nickname board') /\
   (forall n, In n (map Leaderboard.nickname board') <->
      n = "Vanguard" \/ In n (map Leaderboard.nickname (Leaderboard.MOCK_LEADERBOARD 0)))).
Proof.
  assert (Hnd : List.NoDup (map Leaderboard.nickname (Leaderboard.MOCK_LEADERBOARD 0))).
  { cbn. constructor; [cbn; intros [H|H]; [discriminate|exact H]|].
    constructor; [intros []|constructor]. }
  split; [exact Hnd|]. exact (updateLeaderboard_names 1 "Vanguard" "#fff" "star" 3000 2 _ Hnd).
Defined.

(** ** Accounts *)

Lemma accounts_proto_name nick :
  existsb (String.eqb nick) Accounts.objectPrototypeNames = true <-> In nick Accounts.objectPrototypeNames.
Proof.
  rewrite existsb_exists. split.
  - intros (x & Hx & He). apply String.eqb_eq in He. subst. exact Hx.
  - intros Hin. exists nick. split; [exact Hin|apply String.eqb_refl].
Qed.



(** A successful [registerUser] is a round trip with [loginUser]: a later
    login with the same nickname succeeds with the registered password and
    avatar and fails with any other password, and logins under every other
    nickname behave as before the registration. *)
Theorem registerUser_loginUser db user nick pass color icon :
  Accounts.success (Accounts.registerUser db user nick pass color icon).2 = true ->
  let db' := (Accounts.registerUser db user nick pass color icon).1.1 in
  (forall user' pass',
     Accounts.loginUser db' user' nick pass' =
       if String.eqb pass pass' then
         (Some (Accounts.mkProfile true false nick color icon), Accounts.mkAuth true None)
       else (user', Accounts.mkAuth false (Some "Invalid credentials."))) /\
  (forall user' nick' pass', nick' <> nick ->
     Accounts.loginUser db' user' nick' pass' = Accounts.loginUser db user' nick' pass').
Proof.
  unfold Accounts.registerUser. destruct (Accounts.lookupDb db nick) as [v|] eqn:E; [discriminate|].
  intros _. cbn. split.
  - intros user' pass'. unfold Accounts.loginUser, Accounts.lookupDb. rewrite lookup_insert_eq. reflexivity.
  - intros user' nick' pass' Hne. unfold Accounts.loginUser, Accounts.lookupDb.
    rewrite lookup_insert_ne by congruence. reflexivity.
Qed.

Lemma registerUser_loginUser_witness :
  Accounts.success (Accounts.registerUser ∅ None "alice" "pw" "#fff" "star").2 = true /\
  (let db' := (Accounts.registerUser ∅ None "alice" "pw" "#fff" "star").1.1 in
  (forall user' pass',
     Accounts.loginUser db' user' "alice" pass' =
       if String.eqb "pw" pass' then
         (Some (Accounts.mkProfile true false "alice" "#fff" "star"), Accounts.mkAuth true None)
       else (user', Accounts.mkAuth false (Some "Invalid credentials."))) /\
  (forall user' nick' pass', nick' <> "alice" ->
     Accounts.loginUser db' user' nick' pass' = Accounts.loginUser ∅ user' nick' pass')).
Proof.
  assert (H : Accounts.success (Accounts.registerUser ∅ None "alice" "pw" "#fff" "star").2 = true)
    by (vm_compute; reflexivity).
  split; [exact H|exact (registerUser_loginUser ∅ None "alice" "pw" "#fff" "star" H)].
Defined.

Lemma dbReachable_no_proto db :
  Accounts.dbReachable db -> forall n, In n Accounts.objectPrototypeNames -> db !! n = None.
Proof.
  induction 1 as [|db user nick pass color icon _ IH]; intros n Hn; [apply lookup_empty|].
  unfold Accounts.registerUser, Accounts.lookupDb.
  destruct (db !! nick) as [r|] eqn:E; [exact (IH n Hn)|].
  destruct (existsb _ _) eqn:P; cbn; [exact (IH n Hn)|].
  rewrite lookup_insert_ne; [exact (IH n Hn)|].
  intros ->. apply accounts_proto_name in Hn. congruence.
Qed.

(** No nickname that names a property of [Object.prototype]
    ([constructor], [toString], [__proto__], ...) can ever be registered or
    logged into: in every database the store can reach, [registerUser]
    answers "Nickname taken." and [loginUser] "Invalid credentials." *)
Theorem prototype_names_locked db user nick pass color icon :
  Accounts.dbReachable db -> In nick Accounts.objectPrototypeNames ->
  (Accounts.registerUser db user nick pass color icon).2 = Accounts.mkAuth false (Some "Nickname taken.") /\
  Accounts.loginUser db user nick pass = (user, Accounts.mkAuth false (Some "Invalid credentials.")).
Proof.
  intros Hdb Hn. pose proof (dbReachable_no_proto db Hdb nick Hn) as E.
  pose proof (proj2 (accounts_proto_name nick) Hn) as P.
  unfold Accounts.registerUser, Accounts.loginUser, Accounts.lookupDb. rewrite E, P. split; reflexivity.
Qed.

Lemma prototype_names_locked_witness :
  Accounts.dbReachable (Accounts.registerUser ∅ None "alice" "pw" "#fff" "star").1.1 /\
  In "constructor" Accounts.objectPrototypeNames /\
  (Accounts.registerUser (Accounts.registerUser ∅ None "alice" "pw" "#fff" "star").1.1 None
     "constructor" "pw" "#fff" "star").2 = Accounts.mkAuth false (Some "Nickname taken.") /\
  Accounts.loginUser (Accounts.registerUser ∅ None "alice" "pw" "#fff" "star").1.1 None "constructor" "pw"
    = (None, Accounts.mkAuth false (Some "Invalid credentials.")).
Proof.
  assert (Hdb : Accounts.dbReachable (Accounts.registerUser ∅ None "alice" "pw" "#fff" "star").1.1)
    by (apply Accounts.dbReachable_register, Accounts.dbReachable_init).
  assert (Hn : In "constructor" Accounts.objectPrototypeNames) by (left; reflexivity).
  split; [exact Hdb|split; [exact Hn|]].
  exact (prototype_names_locked _ None "constructor" "pw" "#fff" "star" Hdb Hn).
Defined.

(** ** The initial game *)

Lemma spawnBots_keys i n sps g acc :
  map entKey (spawnBots i n sps g acc).2 =
  map entKey acc ++ map (fun sp => getHexKey sp.1 sp.2) (firstn n sps).
Proof.
  revert i sps g acc. induction n as [|n IH]; intros i sps g acc;
    [destruct sps; cbn; rewrite app_nil_r; reflexivity|].
  destruct sps as [|sp sps]; cbn [spawnBots firstn]; [cbn; rewrite app_nil_r; reflexivity|].
  rewrite IH, map_app, <- app_assoc. reflexivity.
Qed.

Lemma addIfAbsent_fold_keeps l g k h :
  g !! k = Some h -> fold_left addIfAbsent l g !! k = Some h.
Proof. change (fold_left addIfAbsent l g) with (fold_left exploreOne l g). apply exploreOne_keeps. Qed.

Lemma spawnBots_grid i n sps g acc :
  (forall k, is_Some (g !! k) -> is_Some ((spawnBots i n sps g acc).1 !! k)) /\
  (forall sp, In sp (firstn n sps) -> is_Some ((spawnBots i n sps g acc).1 !! getHexKey sp.1 sp.2)).
Proof.
  revert i sps g acc. induction n as [|n IH]; intros i sps g acc;
    [destruct sps; cbn; (split; [auto|intros _ []])|].
  destruct sps as [|sp sps]; cbn [spawnBots firstn]; [split; [auto|intros _ []]|].
  set (g' := match g !! getHexKey sp.1 sp.2 with
             | Some _ => g
             | None => fold_left addIfAbsent (getNeighbors sp.1 sp.2)
                         (<[getHexKey sp.1 sp.2 := createInitialHex sp.1 sp.2 0]> g)
             end).
  assert (Hkeep : forall k, is_Some (g !! k) -> is_Some (g' !! k)).
  { intros k [h Hk]. unfold g'. destruct (g !! getHexKey sp.1 sp.2) eqn:E; [exists h; exact Hk|].
    exists h. apply addIfAbsent_fold_keeps. rewrite lookup_insert_ne; [exact Hk|congruence]. }
  assert (Hsp : is_Some (g' !! getHexKey sp.1 sp.2)).
  { unfold g'. destruct (g !! getHexKey sp.1 sp.2) eqn:E; [eexists; exact E|].
    eexists. apply addIfAbsent_fold_keeps, lookup_insert_eq. }
  destruct (IH (S i) sps g' (acc ++ [spawnBot i sp])) as [H1 H2].
  split; [intros k Hk; apply H1, Hkeep, Hk|].
  intros sp' [<-|Hin]; [apply H1, Hsp|apply H2, Hin].
Qed.

Lemma generateInitialGameData_facts w now :
  let s := generateInitialGameData w now in
  let botCount' := match w with
                   | Some w => if botCount w =? 0 then 1 else botCount w
                   | None => 1
                   end in
  length (bots s) = Z.to_nat (Z.min botCount' 4) /\
  entKey (player s) = (0, 0) /\
  NoDup (map entKey (agents s)) /\
  Forall (fun e => is_Some (grid s !! entKey e)) (agents s) /\
  (forall n, In n (getNeighbors 0 0) -> is_Some (grid s !! coordKey n)).
Proof.
  cbn zeta. unfold generateInitialGameData. cbv zeta.
  set (bc := match w with Some w => if botCount w =? 0 then 1 else botCount w | None => 1 end).
  set (g1 := fold_left (fun g n => <[coordKey n := createInitialHex (cq n) (cr n) 0]> g)
               (getNeighbors 0 0) {[getHexKey 0 0 := createInitialHex 0 0 0]}).
  set (k := Z.to_nat (Z.min bc (Z.of_nat (length spawnPoints)))).
  pose proof (spawnBots_keys 0 k spawnPoints g1 []) as Hkeys.
  destruct (spawnBots_grid 0 k spawnPoints g1 []) as [Hkeep Hsp].
  destruct (spawnBots 0 k spawnPoints g1 []) as [g bs]. cbn in Hkeys, Hkeep, Hsp |- *.
  assert (Hlen : length bs = length (firstn k spawnPoints))
    by (rewrite <- (length_map entKey bs), Hkeys, length_map; reflexivity).
  assert (Hk : (k <= 4)%nat) by (unfold k; cbn [length spawnPoints]; lia).
  assert (Hg1 : forall n, In n (getNeighbors 0 0) -> is_Some (g1 !! coordKey n)).
  { unfold g1, getNeighbors. cbn. intros n Hn.
    repeat destruct Hn as [<-|Hn]; [..|destruct Hn];
      rewrite ?lookup_insert_eq; eexists; reflexivity. }
  assert (Hg0 : is_Some (g1 !! (0, 0))) by (vm_compute; eexists; reflexivity).
  split; [rewrite Hlen, length_firstn; unfold k; cbn [length spawnPoints]; lia|].
  split; [reflexivity|].
  split.
  - cbn [map]. rewrite Hkeys. cbn [map app].
    destruct k as [|[|[|[|[|k']]]]]; [..|lia]; cbn;
      refine (bool_decide_unpack _ _); vm_compute; reflexivity.
  - split; [|intros n Hn; apply Hkeep, Hg1, Hn].
    constructor; [apply Hkeep, Hg0|].
    apply List.Forall_forall. intros b Hb.
    assert (Hin : In (entKey b) (map (fun sp => getHexKey sp.1 sp.2) (firstn k spawnPoints)))
      by (rewrite <- Hkeys; apply in_map, Hb).
    apply in_map_iff in Hin. destruct Hin as (sp & Hsp' & Hin). rewrite <- Hsp'. apply Hsp, Hin.
Qed.

(** [generateInitialGameData] spawns [Math.min(botCount || 1, 4)] bots, the
    player at the origin and the bots on distinct spawn points, so that no two
    agents share a tile; every agent stands on a tile of the grid, and the six
    tiles around the origin exist. *)
Theorem generateInitialGameData_spawn w now :
  let s := generateInitialGameData w now in
  let botCount' := match w with
                   | Some w => if botCount w =? 0 then 1 else botCount w
                   | None => 1
                   end in
  length (bots s) = Z.to_nat (Z.min botCount' 4) /\
  entKey (player s) = (0, 0) /\
  NoDup (map entKey (agents s)) /\
  Forall (fun e => is_Some (grid s !! entKey e)) (agents s) /\
  (forall n, In n (getNeighbors 0 0) -> is_Some (grid s !! coordKey n)).
Proof. apply generateInitialGameData_facts. Qed.


Lemma storeStep_distinct a s :
  NoDup (map entKey (agents s)) -> NoDup (map entKey (agents (storeStep a s))).
Proof.
  intros Hnd. destruct a; cbn [storeStep].
  - exact Hnd.
  - apply generateInitialGameData_facts.
  - apply generateInitialGameData_facts.
  - apply generateInitialGameData_facts.
  - unfold togglePlayerGrowth. repeat case_match; exact Hnd.
  - unfold rechargeMove. repeat case_match; exact Hnd.
  - exact Hnd.
  - unfold confirmPendingAction. repeat case_match; exact Hnd.
  - unfold movePlayer. repeat case_match; exact Hnd.
  - apply processMovementStep_distinct, Hnd.
  - apply tick_distinct, Hnd.
Qed.

(** In every state the store can reach, the player and the bots stand on
    pairwise distinct tiles: the initial game spawns them apart, and no
    action (including starting, abandoning or leaving a game, every move of
    the player and every tick) puts two agents on one tile. *)
Theorem reachable_agents_distinct s :
  reachable s -> NoDup (map entKey (agents s)).
Proof.
  induction 1 as [t0|a s _ IH]; [apply generateInitialGameData_facts|apply storeStep_distinct, IH].
Qed.

Lemma reachable_agents_distinct_witness :
  reachable (storeStep (Tick 5000) (storeStep (StartNewGame (mkWin WEALTH 100 4) 0)
    (generateInitialGameData None 0))) /\
  NoDup (map entKey (agents (storeStep (Tick 5000) (storeStep (StartNewGame (mkWin WEALTH 100 4) 0)
    (generateInitialGameData None 0))))).
Proof.
  assert (H : reachable (storeStep (Tick 5000) (storeStep (StartNewGame (mkWin WEALTH 100 4) 0)
    (generateInitialGameData None 0)))) by (apply reachable_step, reachable_step, reachable_init).
  split; [exact H|exact (reachable_agents_distinct _ H)].
Defined.

(** ** Purses *)

Lemma pathCost_nonneg g path : 0 <= pathCost g path.
Proof.
  unfold pathCost. assert (H : forall acc, 0 <= acc -> 0 <= fold_left
    (fun acc step => acc + stepCost (g !! coordKey step)) path acc).
  { induction path as [|st path IH]; intros acc Ha; cbn; [exact Ha|].
    apply IH. unfold stepCost. destruct (g !! coordKey st) as [h|]; [destruct (Z.leb_spec 2 (maxLevel h))|]; lia. }
  apply H. lia.
Qed.

Lemma processEntityGrowth_purse g e flag :
  gridWf g -> purseOk e -> purseOk (gr_ent (processEntityGrowth g e flag)).
Proof.
  intros Hg He. unfold processEntityGrowth.
  destruct (negb flag || _); [exact He|].
  destruct (g !! getHexKey (ent_q e) (ent_r e)) as [hex|] eqn:Eh; [|exact He].
  pose proof (map_Forall_lookup_1 _ _ _ _ Hg Eh) as Hh. unfold hexWf in Hh.
  destruct (negb (canGrow _)); [exact He|].
  destruct (getSecondsToGrow _ <=? _); [|exact He]. cbn.
  unfold purseOk in *. cbn.
  destruct (maxLevel hex <? currentLevel hex + 1); destruct (currentLevel hex + 1 =? 1); cbn;
    [| |pose proof (Z.pow_nonneg (currentLevel hex + 1) 2)|]; lia.
Qed.

Lemma finishUpgrade_purse now bR last :
  purseOk (gr_ent bR) -> purseOk (finishUpgrade now bR last).1.1.
Proof.
  intros H. unfold finishUpgrade. destruct (finishedStep bR); [|exact H].
  destruct (movementQueue (gr_ent bR)) as [|c rest]; [exact H|].
  destruct (upgrade c); exact H.
Qed.

Lemma botMoveStep_purse g occ oldKey b ns rest :
  purseOk b -> purseOk (botMoveStep g occ oldKey b ns rest).2.
Proof.
  intros Hb. unfold botMoveStep. cbv zeta.
  case_bool_decide; [exact Hb|].
  unfold payStep, EXCHANGE_RATE_COINS_PER_MOVE. cbn [moves coins setQueue].
  unfold purseOk in *.
  destruct (Z.leb_spec (stepCost (g !! coordKey ns)) (moves b));
    [|destruct (Z.leb_spec ((stepCost (g !! coordKey ns) - moves b) * 2) (coins b))]; cbn; lia.
Qed.

Lemma botAct_purse s np g occ oldKey b sg :
  purseOk b -> purseOk (botAct s np g occ oldKey b sg).1.2.
Proof.
  intros Hb. unfold botAct. destruct (movementQueue b) as [|ns rest].
  - destruct (calculateBotMove _ _ _ _ _) as [[|p ps]|]; cbn; try exact Hb;
      (destruct (Z.leb_spec EXCHANGE_RATE_COINS_PER_MOVE (coins b)); cbn;
         [unfold purseOk, EXCHANGE_RATE_COINS_PER_MOVE in *; cbn in *; lia|exact Hb]).
  - destruct (upgrade ns).
    + destruct (g !! entKey b) as [bHex|]; [destruct (canGrow _)|]; exact Hb.
    + pose proof (botMoveStep_purse g occ oldKey b ns rest Hb) as H.
      destruct (botMoveStep g occ oldKey b ns rest) as [g' b']. exact H.
Qed.

Lemma botIteration_purse now s np lp bot :
  gridWf (lp_grid lp) -> Forall purseOk (newBots lp) -> purseOk bot ->
  Forall purseOk (newBots (botIteration now s np lp bot)).
Proof.
  intros Hg Hnb Hbot. unfold botIteration.
  match goal with |- context [processEntityGrowth (lp_grid lp) ?b0 ?fl] =>
    assert (Hb0 : purseOk b0) by (destruct (memory bot); exact Hbot);
    pose proof (processEntityGrowth_wf (lp_grid lp) b0 fl Hg) as H1;
    pose proof (finishUpgrade_purse now (processEntityGrowth (lp_grid lp) b0 fl) (lp_lastBotActionTime lp)
                  (processEntityGrowth_purse _ _ fl Hg Hb0)) as H2;
    destruct (finishUpgrade now (processEntityGrowth (lp_grid lp) b0 fl) (lp_lastBotActionTime lp))
      as [[b2 sg1] last1] end.
  cbn in H2. destruct (negb sg1 && _); cbn.
  - match goal with |- context [botAct ?s ?np ?g ?occ ?k ?b ?sg] =>
      pose proof (botAct_purse s np g occ k b sg H2) as H3; destruct (botAct s np g occ k b sg) as [[g3 b3] sg2]
    end. cbn. apply Forall_app. split; [exact Hnb|constructor; [exact H3|constructor]].
  - apply Forall_app. split; [exact Hnb|constructor; [exact H2|constructor]].
Qed.

Lemma tick_purse now s :
  gridWf (grid s) -> Forall purseOk (agents s) -> Forall purseOk (agents (tick now s)).
Proof.
  intros Hg H. inversion H as [|? ? Hp Hbs]; subst.
  unfold tick. destruct (uiState s), (gameStatus s); try exact H.
  cbn [agents player bots]. constructor; [apply processEntityGrowth_purse; assumption|].
  unfold botsLoop. cbn [bots].
  match goal with |- Forall purseOk (newBots (fold_left _ _ ?lp0)) =>
    assert (H0 : gridWf (lp_grid lp0) /\ Forall purseOk (newBots lp0))
      by (split; [apply processEntityGrowth_wf, Hg|constructor]);
    revert H0; generalize lp0 end.
  induction Hbs as [|bot bs Hbot _ IH]; intros lp [H0 H1]; cbn; [exact H1|].
  apply IH. split; [apply botIteration_wf, H0|apply botIteration_purse; assumption].
Qed.

Lemma spawnBots_all (P : Entity -> Prop) i n sps g acc :
  (forall j sp, P (spawnBot j sp)) -> Forall P acc -> Forall P (spawnBots i n sps g acc).2.
Proof.
  intros HP. revert i sps g acc. induction n as [|n IH]; intros i sps g acc H; [destruct sps; exact H|].
  destruct sps as [|sp sps]; [exact H|]. cbn. apply IH.
  apply Forall_app. split; [exact H|]. constructor; [apply HP|constructor].
Qed.

Lemma generateInitialGameData_purse w now :
  Forall purseOk (agents (generateInitialGameData w now)) /\
  pendingOk (pendingConfirmation (generateInitialGameData w now)).
Proof.
  unfold generateInitialGameData.
  match goal with |- context [spawnBots ?i ?n ?sps ?g ?acc] =>
    pose proof (spawnBots_all purseOk i n sps g acc
                  (fun j sp => conj (Z.le_refl 0) (conj (Z.le_refl 0) (Z.le_refl 0))) (List.Forall_nil _)) as H;
    destruct (spawnBots i n sps g acc) as [g' bs] end.
  cbn in *. split; [|exact I]. constructor; [|exact H]. vm_compute. split; [discriminate|split; discriminate].
Qed.

Lemma storeStep_purse a s :
  gridWf (grid s) -> Forall purseOk (agents s) -> pendingOk (pendingConfirmation s) ->
  Forall purseOk (agents (storeStep a s)) /\ pendingOk (pendingConfirmation (storeStep a s)).
Proof.
  intros Hg H Hpc. inversion H as [|? ? Hp Hbs]; subst.
  destruct a; cbn [storeStep].
  - split; assumption.
  - apply generateInitialGameData_purse.
  - apply generateInitialGameData_purse.
  - apply generateInitialGameData_purse.
  - unfold togglePlayerGrowth. repeat case_match; split; assumption.
  - unfold rechargeMove. destruct (negb _ || _) eqn:E; [split; assumption|].
    apply orb_false_iff in E. destruct E as [_ E]. apply Z.ltb_ge in E.
    split; [|exact Hpc]. constructor; [|exact Hbs].
    unfold purseOk, EXCHANGE_RATE_COINS_PER_MOVE in *. cbn. lia.
  - split; [exact H|exact I].
  - unfold confirmPendingAction. destruct (pendingConfirmation s) as [pc|] eqn:Epc; [|split; [exact H|rewrite Epc; exact I]].
    destruct (_ || _) eqn:E; [split; [exact H|exact I]|].
    apply orb_false_iff in E. destruct E as [E1 E2]. apply Z.ltb_ge in E1, E2.
    split; [|exact I]. constructor; [|exact Hbs].
    unfold pendingOk in Hpc. unfold purseOk in *. cbn. lia.
  - unfold movePlayer. pose proof (pathCost_nonneg (grid s)) as Hc.
    repeat case_match; try (split; assumption).
    + split; [exact H|]. cbn. unfold purseOk in Hp. lazymatch goal with
        |- context [pathCost ?g ?p] => specialize (Hc p) end.
      match goal with Hlt : (0 <? _) = true |- _ => apply Z.ltb_lt in Hlt end. lia.
    + split; [|exact Hpc]. constructor; [|exact Hbs]. unfold purseOk in *. cbn. lia.
  - unfold processMovementStep. repeat case_match; split; try assumption; constructor; assumption.
  - split; [apply tick_purse; assumption|].
    unfold tick. destruct (uiState s), (gameStatus s); exact Hpc.
Qed.

(** In every state the store can reach, every agent (the player and each
    bot) has a non-negative number of moves and a number of coins between 0
    and its [totalCoinsEarned]: no action spends more than the agent holds,
    and coins only come from rewards, which count towards the total. *)
Theorem reachable_purses s :
  reachable s -> Forall (fun e => 0 <= moves e /\ 0 <= coins e <= totalCoinsEarned e) (agents s).
Proof.
  intros Hr. cut (Forall purseOk (agents s) /\ pendingOk (pendingConfirmation s)); [tauto|].
  induction Hr as [t0|a s Hr IH]; [apply generateInitialGameData_purse|].
  destruct IH as [H1 H2]. apply storeStep_purse; [apply reachable_wf, Hr|exact H1|exact H2].
Qed.

Lemma reachable_purses_witness :
  reachable (storeStep (Tick 5000) (storeStep (StartNewGame (mkWin WEALTH 100 4) 0)
    (generateInitialGameData None 0))) /\
  Forall (fun e => 0 <= moves e /\ 0 <= coins e <= totalCoinsEarned e)
    (agents (storeStep (Tick 5000) (storeStep (StartNewGame (mkWin WEALTH 100 4) 0)
      (generateInitialGameData None 0)))).
Proof.
  assert (H : reachable (storeStep (Tick 5000) (storeStep (StartNewGame (mkWin WEALTH 100 4) 0)
    (generateInitialGameData None 0)))) by (apply reachable_step, reachable_step, reachable_init).
  split; [exact H|exact (reachable_purses _ H)].
Defined.

(** ** Paying for a path *)



(** ** Shape of a found path *)

Lemma rebuild_shape startKey fuel prev cur path :
  exists pre, rebuild startKey fuel prev cur path = pre ++ path /\
    Forall (fun c => coordKey c <> startKey) pre.
Proof.
  revert cur path. induction fuel as [|fuel IH]; intros cur path; cbn.
  - exists []. auto.
  - destruct cur as [c|]; [|exists []; auto].
    case_bool_decide as Hc; [exists []; auto|].
    destruct (IH (mjoin (prev !! coordKey c)) (c :: path)) as (pre & Hpre & Hall).
    exists (pre ++ [c]). rewrite Hpre, <- app_assoc. split; [reflexivity|].
    apply Forall_app. split; [exact Hall|constructor; [exact Hc|constructor]].
Qed.

Lemma dijkstra_found_rebuild grid rank obs sk ek e fuel st path :
  dijkstra grid rank obs sk ek e fuel st = Found path ->
  exists n prev, path = rebuild sk (S n) prev (Some e) [].
Proof.
  revert st. induction fuel as [|fuel IH]; intros st; cbn.
  - destruct (priorityQueue st); discriminate.
  - destruct (priorityQueue st); [discriminate|].
    destruct (sortByPriority _) as [|en rest]; [discriminate|].
    case_bool_decide; [intros [= <-]; eexists _, _; reflexivity|].
    apply IH.
Qed.

(** A path returned by [findPath] is never empty, ends at the destination,
    and never passes through the start coordinate (the rebuilding loop stops
    at the start, and the one-step fallback is [[end]]). *)
Theorem findPath_shape start end_ grid rank obstacles path :
  findPath start end_ grid rank obstacles = Some path ->
  exists pre, path = pre ++ [end_] /\ Forall (fun c => coordKey c <> coordKey start) path.
Proof.
  unfold findPath. cbv zeta.
  case_bool_decide as Hse; [discriminate|].
  case_bool_decide as Hobs; [discriminate|].
  destruct (dijkstra _ _ _ _ _ _ _ _) as [p| |] eqn:E.
  - intros [= <-]. destruct (dijkstra_found_rebuild _ _ _ _ _ _ _ _ _ E) as (n & prev & ->).
    cbn. rewrite bool_decide_false by (intros Heq; apply Hse; symmetry; exact Heq).
    destruct (rebuild_shape (coordKey start) n prev (mjoin (prev !! coordKey end_)) [end_])
      as (pre & -> & Hall).
    exists pre. split; [reflexivity|].
    apply Forall_app. split; [exact Hall|constructor; [intros Heq; apply Hse; symmetry; exact Heq|constructor]].
  - destruct (_ && _); [|discriminate]. intros [= <-]. exists [].
    split; [reflexivity|constructor; [intros Heq; apply Hse; symmetry; exact Heq|constructor]].
  - discriminate.
Qed.

Lemma findPath_shape_witness :
  findPath origin eastOfOrigin (grid sampleStart) 0 [] = Some [eastOfOrigin] /\
  exists pre, [eastOfOrigin] = pre ++ [eastOfOrigin] /\
    Forall (fun c => coordKey c <> coordKey origin) [eastOfOrigin].
Proof.
  assert (H : findPath origin eastOfOrigin (grid sampleStart) 0 [] = Some [eastOfOrigin])
    by (vm_compute; reflexivity).
  split; [exact H|exact (findPath_shape _ _ _ _ _ _ H)].
Defined.

(** ** The end of a game *)

